(** * AI smart glasses demo: a shallow embedding of the Python sources

    The development follows the five source files: [navigation.py],
    [voice_assistance.py], [object_detection.py], [reading_module.py] and
    [main.py].  Each Python module becomes a Rocq [Module] of the same name;
    the pieces of the Python runtime the code relies on (exceptions,
    [str] methods, [int / int]) are collected in [Module Py]. *)

From Stdlib Require Import ZArith QArith List String Ascii Bool Lia.
From Stdlib Require Import Permutation.
Import ListNotations.

Local Open Scope string_scope.
Local Open Scope Z_scope.

(* ===================================================================== *)
(** * The Python runtime *)
(* ===================================================================== *)

Module Py.

(** Exceptions raised by the code or by the operators it uses. *)
Inductive exn : Type :=
| ValueError (msg : string)
| OverflowError (msg : string)
| NotImplementedError (msg : string).

(** A computation that may raise: [inl e] is a raised exception. *)
Definition result (A : Type) : Type := (exn + A)%type.

Definition ret {A : Type} (a : A) : result A := inr a.
Definition raise {A : Type} (e : exn) : result A := inl e.

Definition bind {A B : Type} (c : result A) (k : A -> result B) : result B :=
  match c with
  | inl e => inl e
  | inr a => k a
  end.

(** A [for] loop whose body may raise, threading the loop variables. *)
Fixpoint for_each {A S : Type} (body : S -> A -> result S) (xs : list A) (s : S)
  : result S :=
  match xs with
  | [] => ret s
  | x :: xs' => bind (body s x) (for_each body xs')
  end.

(** ** Strings

    A [string] stands for a Python [str] whose code points are below 256
    (Latin-1); [ascii] is one such code point. *)

Definition ord (c : ascii) : N := N_of_ascii c.

(** [str.isspace] on one code point: TAB..CR, FS..US, SPACE, NEL, NBSP. *)
Definition isspace (c : ascii) : bool :=
  let n := ord c in
  (((9 <=? n) && (n <=? 13)) || ((28 <=? n) && (n <=? 32))
   || (n =? 133) || (n =? 160))%N.

(** [str.lower] on one code point: A..Z and the Latin-1 capitals
    (U+00C0..U+00DE without the multiplication sign) move up by 32. *)
Definition lower_char (c : ascii) : ascii :=
  let n := ord c in
  if (((65 <=? n) && (n <=? 90))
      || ((192 <=? n) && (n <=? 222) && negb (n =? 215)))%N
  then ascii_of_N (n + 32) else c.

Fixpoint lower (s : string) : string :=
  match s with
  | EmptyString => EmptyString
  | String c s' => String (lower_char c) (lower s')
  end.

Definition is_empty_str (s : string) : bool :=
  match s with EmptyString => true | String _ _ => false end.

(** [s.split()]: the maximal runs of non-whitespace, in order.  [word] is
    the run being read. *)
Fixpoint split_from (s word : string) : list string :=
  match s with
  | EmptyString => if is_empty_str word then [] else [word]
  | String c s' =>
      if isspace c
      then (if is_empty_str word then split_from s' EmptyString
            else word :: split_from s' EmptyString)
      else split_from s' (word ++ String c EmptyString)
  end.

Definition split (s : string) : list string := split_from s EmptyString.

(** [sep.join(words)]. *)
Fixpoint join (sep : string) (words : list string) : string :=
  match words with
  | [] => EmptyString
  | [w] => w
  | w :: ws => w ++ sep ++ join sep ws
  end.

Fixpoint lstrip (s : string) : string :=
  match s with
  | EmptyString => EmptyString
  | String c s' => if isspace c then lstrip s' else s
  end.

Fixpoint rstrip (s : string) : string :=
  match s with
  | EmptyString => EmptyString
  | String c s' =>
      let r := rstrip s' in
      if isspace c && is_empty_str r then EmptyString else String c r
  end.

(** [s.strip()]. *)
Definition strip (s : string) : string := rstrip (lstrip s).

(** [sub in s] on strings. *)
Fixpoint contains (sub s : string) : bool :=
  prefix sub s ||
  match s with
  | EmptyString => false
  | String _ s' => contains sub s'
  end.

(** Truth value of a [str] and of an [Optional[str]]. *)
Definition str_truthy (s : string) : bool := negb (is_empty_str s).

Definition opt_str_truthy (o : option string) : bool :=
  match o with
  | None => false
  | Some s => str_truthy s
  end.

(** [x in xs] for a tuple of strings. *)
Definition str_in (x : string) (xs : list string) : bool :=
  existsb (String.eqb x) xs.

(** ** Floats

    [int / int] is true division: the exact quotient rounded to the nearest
    double (ties to even), [OverflowError] when that is out of range.  The
    code only divides by the literal [2], so only that case is modelled.  A
    finite double is represented by the rational it denotes. *)

Definition float : Type := Q.

Definition DBL_MANT_DIG : Z := 53.
Definition DBL_MAX_EXP : Z := 1024.

Definition bit_length (n : Z) : Z :=
  if n =? 0 then 0 else Z.log2 (Z.abs n) + 1.

(** [n] rounded to [DBL_MANT_DIG] significant bits, ties to even. *)
Definition round_to_mantissa (n : Z) : Z :=
  let bits := bit_length n in
  if bits <=? DBL_MANT_DIG then n
  else
    let shift := bits - DBL_MANT_DIG in
    let q := Z.abs n / 2 ^ shift in
    let r := Z.abs n mod 2 ^ shift in
    let half := 2 ^ (shift - 1) in
    let q' := if r <? half then q
              else if half <? r then q + 1
              else if Z.even q then q else q + 1 in
    Z.sgn n * (q' * 2 ^ shift).

(** [n / 2] for an [int] [n].  Halving is exact in binary floating point, so
    the result is half the rounded numerator; it overflows when its
    magnitude reaches [2 ^ DBL_MAX_EXP]. *)
Definition truediv_2 (n : Z) : result float :=
  let m := round_to_mantissa n in
  if 2 ^ (DBL_MAX_EXP + 1) <=? Z.abs m
  then raise (OverflowError "integer division result too large for a float")
  else ret (inject_Z m / 2)%Q.

(** A sufficient condition for [float(n)] to be [n] itself. *)
Definition within_mantissa (n : Z) : Prop := Z.abs n <= 2 ^ DBL_MANT_DIG.

(** [x < y] on floats. *)
Definition float_lt (x y : float) : bool := negb (Qle_bool y x).

End Py.

Declare Scope py_scope.
Notation "x <- c ;; k" := (Py.bind c (fun x => k))
  (at level 61, c at next level, right associativity) : py_scope.
Notation "' pat <- c ;; k" := (Py.bind c (fun x => match x with pat => k end))
  (at level 61, pat pattern, c at next level, right associativity) : py_scope.
Local Open Scope py_scope.

(* ===================================================================== *)
(** * navigation.py *)
(* ===================================================================== *)

Module Navigation.
Import Py.

Definition audio_guidance : list string := ["left"; "right"; "forward"].

(** A bounding box is a sequence of four integers; the code reads
    [bbox[0]] and [bbox[2]]. *)
Record BBox : Type := mkBBox {
  bbox_0 : Z;   (* left *)
  bbox_1 : Z;   (* top *)
  bbox_2 : Z;   (* right *)
  bbox_3 : Z    (* bottom *)
}.

Record Obstacle : Type := mkObstacle {
  bbox : BBox;
  label : string;
  confidence : Q
}.

(** An opaque camera frame. *)
Definition Frame : Type := unit.

(** The three protocols.  An implementation is a type of backend states
    with the protocol's method. *)
Class CameraInput (C : Type) : Type :=
  get_frame : C -> Frame.

Class ObstacleDetector (D : Type) : Type :=
  detect : D -> Frame -> list Obstacle.

Class AudioOutput (A : Type) : Type :=
  speak : A -> string -> A.

(** Audio backends are shared between assistants: an assistant holds a
    reference into a store of backends, and [speak] updates the store. *)
Definition AudioRef : Type := nat.
Definition AudioStore (A : Type) : Type := AudioRef -> A.

Definition speak_at {A : Type} `{AudioOutput A}
  (st : AudioStore A) (r : AudioRef) (message : string) : AudioStore A :=
  fun r' => if Nat.eqb r' r then speak (st r) message else st r'.

Record GuidanceResult : Type := mkGuidanceResult {
  direction : string;
  obstacles : list Obstacle
}.

Record NavigationAssistant (C D : Type) : Type := mkNavigationAssistant {
  _camera : C;
  _detector : D;
  _audio : AudioRef;
  _frame_width : Z
}.
Arguments mkNavigationAssistant {C D}.
Arguments _camera {C D}.
Arguments _detector {C D}.
Arguments _audio {C D}.
Arguments _frame_width {C D}.

(** [NavigationAssistant.__init__]. *)
Definition NavigationAssistant_init {C D : Type}
  (camera : C) (detector : D) (audio : AudioRef) (frame_width : Z)
  : result (NavigationAssistant C D) :=
  if frame_width <=? 0 then raise (ValueError "frame_width must be positive")
  else ret (mkNavigationAssistant camera detector audio frame_width).

(** [not xs] on a list. *)
Definition is_nil {X : Type} (l : list X) : bool :=
  match l with [] => true | _ :: _ => false end.

(** The counting loop of [_compute_guidance], from the zeroed counters to
    the end of the [for]: the pair [(left_count, right_count)]. *)
Definition _compute_guidance_counts {C D : Type}
  (self : NavigationAssistant C D) (obstacles : list Obstacle) : result (Z * Z) :=
  for_each (fun '(left_count, right_count) obstacle =>
    center_x <- truediv_2 (bbox_0 (bbox obstacle) + bbox_2 (bbox obstacle)) ;;
    half <- truediv_2 (_frame_width self) ;;
    if float_lt center_x half
    then ret (left_count + 1, right_count)
    else ret (left_count, right_count + 1))
  obstacles (0, 0).

(** [NavigationAssistant._compute_guidance]. *)
Definition _compute_guidance {C D : Type}
  (self : NavigationAssistant C D) (obstacles : list Obstacle) : result string :=
  if is_nil obstacles then ret "forward"
  else
    '(left_count, right_count) <- _compute_guidance_counts self obstacles ;;
    if right_count <? left_count then ret "right"
    else if left_count <? right_count then ret "left"
    else ret "forward".

(** [NavigationAssistant.process_frame]. *)
Definition process_frame {C D A : Type}
  `{CameraInput C} `{ObstacleDetector D} `{AudioOutput A}
  (self : NavigationAssistant C D) (st : AudioStore A)
  : result (GuidanceResult * AudioStore A) :=
  let frame := get_frame (_camera self) in
  let obstacles := detect (_detector self) frame in
  direction <- _compute_guidance self obstacles ;;
  let st := speak_at st (_audio self) direction in
  ret (mkGuidanceResult direction obstacles, st).

(** The counting loop of [choose_direction_from_obstacles]. *)
Definition choose_direction_counts
  (obstacle_list : list Obstacle) (frame_width : Z) : result (Z * Z) :=
  for_each (fun '(left_count, right_count) obstacle =>
    center_x <- truediv_2 (bbox_0 (bbox obstacle) + bbox_2 (bbox obstacle)) ;;
    half <- truediv_2 frame_width ;;
    if float_lt center_x half
    then ret (left_count + 1, right_count)
    else ret (left_count, right_count + 1))
  obstacle_list (0, 0).

(** [choose_direction_from_obstacles]. *)
Definition choose_direction_from_obstacles
  (obstacles : list Obstacle) (frame_width : Z) : result string :=
  if frame_width <=? 0 then raise (ValueError "frame_width must be positive")
  else
    let obstacle_list := obstacles in
    if is_nil obstacle_list then ret "forward"
    else
      '(left_count, right_count) <- choose_direction_counts obstacle_list frame_width ;;
      if right_count <? left_count then ret "right"
      else if left_count <? right_count then ret "left"
      else ret "forward".

End Navigation.

(* ===================================================================== *)
(** * voice_assistance.py *)
(* ===================================================================== *)

Module VoiceAssistance.
Import Py.

Definition MODES : list string := ["navigation"; "object_detection"; "reading"].

(** A [dict] iterates in insertion order: the phrase table is the list of
    its items. *)
Definition PhraseTable : Type := list (string * list string).

Record CommandConfig : Type := mkCommandConfig {
  phrases_by_mode : PhraseTable
}.

(** The [default_factory] of [phrases_by_mode]. *)
Definition default_phrases_by_mode : PhraseTable :=
  [ ("navigation",
      ["navigation mode"; "switch to navigation"; "navigation"]);
    ("object_detection",
      ["object detection mode"; "switch to object detection";
       "object detection"; "object mode"]);
    ("reading",
      ["reading mode"; "switch to reading"; "reading"; "read mode"]) ].

(** [CommandConfig.__post_init__]: the loop over the table's keys. *)
Fixpoint __post_init__ (items : PhraseTable) : result unit :=
  match items with
  | [] => ret tt
  | (mode, _) :: rest =>
      if negb (str_in mode MODES)
      then raise (ValueError ("Unsupported mode: " ++ mode))
      else __post_init__ rest
  end.

(** [CommandConfig(phrases_by_mode)]; [None] stands for the omitted
    argument. *)
Definition CommandConfig_init (table : option PhraseTable) : result CommandConfig :=
  let table := match table with
               | Some t => t
               | None => default_phrases_by_mode
               end in
  _ <- __post_init__ table ;;
  ret (mkCommandConfig table).

Record ModeSwitchResult : Type := mkModeSwitchResult {
  transcript : string;
  matched_command : option string;
  active_mode : string
}.

(** What [listen] is given as its audio source. *)
Definition AudioSource : Type := unit.

(** The [Transcriber] interface: [listen] returns a transcript or raises,
    and may change the backend's own state either way. *)
Class Transcriber (T : Type) : Type :=
  listen : T -> AudioSource -> result string * T.

(** The base class itself, whose [listen] is not implemented. *)
Inductive BaseTranscriber : Type := mkBaseTranscriber.

#[global] Instance BaseTranscriber_listen : Transcriber BaseTranscriber :=
  fun self _ =>
    (raise (NotImplementedError "Transcriber.listen must be implemented"), self).

Record VoiceAssistant (T : Type) : Type := mkVoiceAssistant {
  _transcriber : T;
  _command_config : CommandConfig;
  _active_mode : string
}.
Arguments mkVoiceAssistant {T}.
Arguments _transcriber {T}.
Arguments _command_config {T}.
Arguments _active_mode {T}.

(** [VoiceAssistant.__init__]. *)
Definition VoiceAssistant_init {T : Type}
  (transcriber : T) (command_config : option CommandConfig) (initial_mode : string)
  : result (VoiceAssistant T) :=
  if negb (str_in initial_mode MODES)
  then raise (ValueError ("Unsupported initial mode: " ++ initial_mode))
  else
    config <- match command_config with
              | Some c => ret c
              | None => CommandConfig_init None
              end ;;
    ret (mkVoiceAssistant transcriber config initial_mode).

(** The inner loop of [_match_mode]: does some phrase occur? *)
Fixpoint any_phrase_in (phrases : list string) (transcript : string) : bool :=
  match phrases with
  | [] => false
  | phrase :: rest =>
      if contains phrase transcript then true else any_phrase_in rest transcript
  end.

(** The outer loop of [_match_mode] over the table's items. *)
Fixpoint match_items (items : PhraseTable) (transcript : string) : option string :=
  match items with
  | [] => None
  | (mode, phrases) :: rest =>
      if any_phrase_in phrases transcript then Some mode
      else match_items rest transcript
  end.

(** [VoiceAssistant._match_mode]. *)
Definition _match_mode {T : Type} (self : VoiceAssistant T) (transcript : string)
  : option string :=
  match_items (phrases_by_mode (_command_config self)) transcript.

(** [" ".join(transcript.lower().split())]. *)
Definition normalize (transcript : string) : string :=
  join " " (split (lower transcript)).

(** [VoiceAssistant.handle_transcript]: the result and the assistant
    afterwards. *)
Definition handle_transcript {T : Type} (self : VoiceAssistant T) (transcript : string)
  : ModeSwitchResult * VoiceAssistant T :=
  let normalized := normalize transcript in
  let matched_mode := _match_mode self normalized in
  let self :=
    match matched_mode with
    | Some m =>
        if opt_str_truthy matched_mode
        then mkVoiceAssistant (_transcriber self) (_command_config self) m
        else self
    | None => self
    end in
  (mkModeSwitchResult transcript matched_mode (_active_mode self), self).

(** [VoiceAssistant.listen_and_handle]. *)
Definition listen_and_handle {T : Type} `{Transcriber T}
  (self : VoiceAssistant T) (audio_source : AudioSource)
  : result ModeSwitchResult * VoiceAssistant T :=
  let '(heard, transcriber) := listen (_transcriber self) audio_source in
  let self := mkVoiceAssistant transcriber (_command_config self) (_active_mode self) in
  match heard with
  | inl e => (inl e, self)
  | inr transcript =>
      let '(res, self) := handle_transcript self transcript in
      (inr res, self)
  end.

(** One call on the assistant's public interface, and a sequence of them. *)
Inductive Call : Type :=
| CallHandleTranscript (transcript : string)
| CallListenAndHandle (audio_source : AudioSource).

Definition do_call {T : Type} `{Transcriber T} (self : VoiceAssistant T) (c : Call)
  : VoiceAssistant T :=
  match c with
  | CallHandleTranscript transcript => snd (handle_transcript self transcript)
  | CallListenAndHandle audio_source => snd (listen_and_handle self audio_source)
  end.

Definition do_calls {T : Type} `{Transcriber T}
  (self : VoiceAssistant T) (calls : list Call) : VoiceAssistant T :=
  fold_left do_call calls self.

End VoiceAssistance.

(* ===================================================================== *)
(** * object_detection.py *)
(* ===================================================================== *)

Module ObjectDetection.
Import Py.
Import Navigation.

Record DetectedObject : Type := mkDetectedObject {
  label : string;
  bbox : BBox;
  confidence : Q
}.

Class ObjectDetector (D : Type) : Type :=
  detect : D -> Frame -> list DetectedObject.

Record DummyObjectDetector : Type := mkDummyObjectDetector {
  _objects : list DetectedObject
}.

(** [DummyObjectDetector(objects)]. *)
Definition DummyObjectDetector_init (objects : option (list DetectedObject))
  : DummyObjectDetector :=
  mkDummyObjectDetector (match objects with Some l => l | None => [] end).

#[global] Instance DummyObjectDetector_detect : ObjectDetector DummyObjectDetector :=
  fun self _ => _objects self.

Record DetectionResult : Type := mkDetectionResult {
  objects : list DetectedObject
}.

Record ObjectDetectionAssistant (C D : Type) : Type := mkObjectDetectionAssistant {
  _camera : C;
  _detector : D;
  _audio : AudioRef
}.
Arguments mkObjectDetectionAssistant {C D}.
Arguments _camera {C D}.
Arguments _detector {C D}.
Arguments _audio {C D}.

(** [ObjectDetectionAssistant._announce]. *)
Definition _announce {C D A : Type} `{AudioOutput A}
  (self : ObjectDetectionAssistant C D) (objects : list DetectedObject)
  (st : AudioStore A) : AudioStore A :=
  if is_nil objects then speak_at st (_audio self) "no objects detected"
  else fold_left (fun st detected => speak_at st (_audio self) (label detected))
                 objects st.

(** [ObjectDetectionAssistant.process_frame]. *)
Definition process_frame {C D A : Type}
  `{CameraInput C} `{ObjectDetector D} `{AudioOutput A}
  (self : ObjectDetectionAssistant C D) (st : AudioStore A)
  : DetectionResult * AudioStore A :=
  let frame := get_frame (_camera self) in
  let objects := detect (_detector self) frame in
  let st := _announce self objects st in
  (mkDetectionResult objects, st).

End ObjectDetection.

(* ===================================================================== *)
(** * reading_module.py *)
(* ===================================================================== *)

Module ReadingModule.
Import Py.
Import Navigation.

Class OcrEngine (E : Type) : Type :=
  extract_text : E -> Frame -> string.

Record DummyOcrEngine : Type := mkDummyOcrEngine {
  _text : string
}.

#[global] Instance DummyOcrEngine_extract_text : OcrEngine DummyOcrEngine :=
  fun self _ => _text self.

Record ReadingResult : Type := mkReadingResult {
  text : string
}.

Record ReadingAssistant (C E : Type) : Type := mkReadingAssistant {
  _camera : C;
  _ocr_engine : E;
  _audio : AudioRef;
  _fallback_message : option string
}.
Arguments mkReadingAssistant {C E}.
Arguments _camera {C E}.
Arguments _ocr_engine {C E}.
Arguments _audio {C E}.
Arguments _fallback_message {C E}.

(** The default of the [fallback_message] argument. *)
Definition default_fallback_message : option string := Some "no text detected".

(** [ReadingAssistant.process_frame]. *)
Definition process_frame {C E A : Type}
  `{CameraInput C} `{OcrEngine E} `{AudioOutput A}
  (self : ReadingAssistant C E) (st : AudioStore A)
  : ReadingResult * AudioStore A :=
  let frame := get_frame (_camera self) in
  let text := strip (extract_text (_ocr_engine self) frame) in
  let st :=
    if str_truthy text then speak_at st (_audio self) text
    else
      match _fallback_message self with
      | Some message =>
          if opt_str_truthy (_fallback_message self)
          then speak_at st (_audio self) message
          else st
      | None => st
      end in
  (mkReadingResult text, st).

End ReadingModule.

(* ===================================================================== *)
(** * main.py *)
(* ===================================================================== *)

Module Main.
Import Py.
Import Navigation.

Inductive DummyCamera : Type := mkDummyCamera.

#[global] Instance DummyCamera_get_frame : CameraInput DummyCamera :=
  fun _ => tt.

Record ScriptedTranscriber : Type := mkScriptedTranscriber {
  _transcripts : list string;
  _index : nat
}.

Definition ScriptedTranscriber_init (transcripts : list string) : ScriptedTranscriber :=
  mkScriptedTranscriber transcripts 0%nat.

#[global] Instance ScriptedTranscriber_listen
  : VoiceAssistance.Transcriber ScriptedTranscriber :=
  fun self _ =>
    match nth_error (_transcripts self) (_index self) with
    | None => (ret "", self)
    | Some transcript =>
        (ret transcript, mkScriptedTranscriber (_transcripts self) (S (_index self)))
    end.

(** Modelled from the spec: [DummyAudioOutput] of [navigation_module], whose
    source is not part of the repository snapshot.  The harness "records
    emitted messages in an ordered log": [speak] appends to [messages]. *)
Record DummyAudioOutput : Type := mkDummyAudioOutput {
  messages : list string
}.

Definition DummyAudioOutput_init : DummyAudioOutput := mkDummyAudioOutput [].

#[global] Instance DummyAudioOutput_speak : AudioOutput DummyAudioOutput :=
  fun self message => mkDummyAudioOutput (messages self ++ [message]).

(** Modelled from the spec: [DummyObstacleDetector] of [navigation_module],
    which is not among the sources at hand.  Every backend
    "returns fixed, pre-scripted data": [detect] returns the obstacles it
    was built with, as [DummyObjectDetector] does for objects. *)
Record DummyObstacleDetector : Type := mkDummyObstacleDetector {
  _obstacles : list Obstacle
}.

#[global] Instance DummyObstacleDetector_detect : ObstacleDetector DummyObstacleDetector :=
  fun self _ => _obstacles self.

Definition build_navigation_assistant (camera : DummyCamera) (audio : AudioRef)
  : result (NavigationAssistant DummyCamera DummyObstacleDetector) :=
  NavigationAssistant_init camera
    (mkDummyObstacleDetector
       [ mkObstacle (mkBBox 20 0 80 60) "chair" (91 # 100);
         mkObstacle (mkBBox 200 0 260 80) "desk" (87 # 100) ])
    audio 320.

Definition build_object_detection_assistant (camera : DummyCamera) (audio : AudioRef)
  : ObjectDetection.ObjectDetectionAssistant DummyCamera ObjectDetection.DummyObjectDetector :=
  ObjectDetection.mkObjectDetectionAssistant camera
    (ObjectDetection.DummyObjectDetector_init (Some
       [ ObjectDetection.mkDetectedObject "person" (mkBBox 10 10 100 200) (95 # 100);
         ObjectDetection.mkDetectedObject "book" (mkBBox 140 40 220 120) (89 # 100) ]))
    audio.

Definition build_reading_assistant (camera : DummyCamera) (audio : AudioRef)
  : ReadingModule.ReadingAssistant DummyCamera ReadingModule.DummyOcrEngine :=
  ReadingModule.mkReadingAssistant camera
    (ReadingModule.mkDummyOcrEngine "Welcome to the campus library")
    audio ReadingModule.default_fallback_message.

(** The state the loop of [run_demo] changes: the voice assistant and the
    store holding the one audio backend. *)
Definition DemoState : Type :=
  (VoiceAssistance.VoiceAssistant ScriptedTranscriber * AudioStore DummyAudioOutput)%type.

(** [run_demo].  The single [DummyAudioOutput] is allocated at reference
    [0] and that same reference is handed to the three assistants. *)
Definition run_demo (transcripts : list string) : result (list string) :=
  let scripted_transcripts := transcripts in
  let camera := mkDummyCamera in
  let audio : AudioRef := 0%nat in
  let store : AudioStore DummyAudioOutput := fun _ => DummyAudioOutput_init in
  voice_assistant <-
    VoiceAssistance.VoiceAssistant_init
      (ScriptedTranscriber_init scripted_transcripts) None "navigation" ;;
  navigation_assistant <- build_navigation_assistant camera audio ;;
  let object_detection_assistant := build_object_detection_assistant camera audio in
  let reading_assistant := build_reading_assistant camera audio in
  '(_, store) <-
    for_each (fun (s : DemoState) (_ : nat) =>
      let '(voice_assistant, store) := s in
      let '(res, voice_assistant) :=
        VoiceAssistance.listen_and_handle voice_assistant tt in
      _ <- res ;;
      let mode := VoiceAssistance._active_mode voice_assistant in
      if String.eqb mode "navigation" then
        '(_, store) <- Navigation.process_frame navigation_assistant store ;;
        ret (voice_assistant, store)
      else if String.eqb mode "object_detection" then
        let '(_, store) :=
          ObjectDetection.process_frame object_detection_assistant store in
        ret (voice_assistant, store)
      else if String.eqb mode "reading" then
        let '(_, store) := ReadingModule.process_frame reading_assistant store in
        ret (voice_assistant, store)
      else ret (voice_assistant, store))
    (seq 0 (List.length scripted_transcripts)) (voice_assistant, store) ;;
  ret (messages (store audio)).

(** The transcripts of the [__main__] block. *)
Definition demo_transcripts : list string :=
  ["switch to navigation"; "switch to object detection"; "switch to reading"].

End Main.

(* ===================================================================== *)
(** * The notions of the specification *)
(* ===================================================================== *)

Module Spec.
Import Navigation.
Import VoiceAssistance.

(** "Invariant: every key must belong to the fixed mode set". *)
Definition valid_table (table : PhraseTable) : Prop :=
  Forall (fun item => In (fst item) MODES) table.

(** An assistant over a valid table whose active mode is in the set. *)
Definition well_formed {T : Type} (self : VoiceAssistant T) : Prop :=
  valid_table (phrases_by_mode (_command_config self)) /\
  In (_active_mode self) MODES.

(** "text is empty/whitespace-only". *)
Fixpoint whitespace_only (s : string) : bool :=
  match s with
  | EmptyString => true
  | String c s' => Py.isspace c && whitespace_only s'
  end.

(** No phrase of the given items occurs in the normalized transcript. *)
Definition no_phrase_occurs (items : PhraseTable) (normalized : string) : Prop :=
  forall mode phrases phrase,
    In (mode, phrases) items -> In phrase phrases ->
    Py.contains phrase normalized = false.

(** "horizontal center = (left + right) / 2 (real-valued division)". *)
Definition horizontal_center (o : Obstacle) : Q :=
  (inject_Z (bbox_0 (bbox o) + bbox_2 (bbox o)) / 2)%Q.

(** "left-side if center < frame_width / 2, else right-side". *)
Definition is_left_side (frame_width : Z) (o : Obstacle) : bool :=
  if Qlt_le_dec (horizontal_center o) (inject_Z frame_width / 2)%Q
  then true else false.

Definition left_side_count (frame_width : Z) (obstacles : list Obstacle) : nat :=
  List.length (filter (is_left_side frame_width) obstacles).

Definition right_side_count (frame_width : Z) (obstacles : list Obstacle) : nat :=
  List.length (filter (fun o => negb (is_left_side frame_width o)) obstacles).

End Spec.

(* ===================================================================== *)
(** * Inputs used in the examples below *)
(* ===================================================================== *)

Module Examples.
Import Navigation.

(** An obstacle spanning the columns [x0 .. x2]. *)
Definition spanning (x0 x2 : Z) : Obstacle :=
  mkObstacle (mkBBox x0 0 x2 0) "obstacle" 1.

(** The integer past which doubles no longer hold every integer. *)
Definition two_53 : Z := 2 ^ 53.

(** An assistant over trivial backends. *)
Definition assistant (frame_width : Z) : NavigationAssistant unit unit :=
  mkNavigationAssistant tt tt 0%nat frame_width.

(** An audio backend that keeps what it was told to speak, a store in
    which nothing was spoken yet, and a reading assistant speaking to the
    backend at reference [0]. *)
#[global] Instance recorder_speak : AudioOutput (list string) :=
  fun spoken message => (spoken ++ [message])%list.

Definition silence : AudioStore (list string) := fun _ => [].

Definition reader (ocr_text : string) (fallback_message : option string)
  : ReadingModule.ReadingAssistant Main.DummyCamera ReadingModule.DummyOcrEngine :=
  ReadingModule.mkReadingAssistant Main.mkDummyCamera
    (ReadingModule.mkDummyOcrEngine ocr_text) 0%nat fallback_message.

(** A navigation assistant over the demo backends whose detector reports
    one obstacle on the left. *)
Definition left_blocked
  : NavigationAssistant Main.DummyCamera Main.DummyObstacleDetector :=
  mkNavigationAssistant Main.mkDummyCamera
    (Main.mkDummyObstacleDetector [spanning 20 80]) 0%nat 320.

(** A voice assistant over the default phrase table. *)
Definition default_config : VoiceAssistance.CommandConfig :=
  VoiceAssistance.mkCommandConfig VoiceAssistance.default_phrases_by_mode.

Definition listener (transcripts : list string) (mode : string)
  : VoiceAssistance.VoiceAssistant Main.ScriptedTranscriber :=
  VoiceAssistance.mkVoiceAssistant
    (Main.ScriptedTranscriber_init transcripts) default_config mode.

End Examples.

(* ===================================================================== *)
(** * Views of the code used to state further properties *)
(* ===================================================================== *)

Module Views.
Import Py.
Import Navigation.
Import VoiceAssistance.

(** The test both counting loops apply to one obstacle,
    [center_x < frame_width / 2], with the two divisions it performs. *)
Definition left_of_midpoint (frame_width : Z) (obstacle : Obstacle) : result bool :=
  center_x <- truediv_2 (bbox_0 (bbox obstacle) + bbox_2 (bbox obstacle)) ;;
  half <- truediv_2 frame_width ;;
  ret (float_lt center_x half).

(** One turn of either loop: the test, then one of the two counters. *)
Definition count_step (frame_width : Z) (counts : Z * Z) (obstacle : Obstacle)
  : result (Z * Z) :=
  let '(left_count, right_count) := counts in
  is_left <- left_of_midpoint frame_width obstacle ;;
  ret (if is_left : bool
       then (left_count + 1, right_count)
       else (left_count, right_count + 1)).

(** The active mode after one transcript: the matched mode when there is
    one (and it is a true value), the mode before otherwise. *)
Definition next_mode (table : PhraseTable) (mode transcript : string) : string :=
  match match_items table (normalize transcript) with
  | Some m => if str_truthy m then m else mode
  | None => mode
  end.

(** The active modes after each of a run of transcripts. *)
Fixpoint mode_trace (table : PhraseTable) (mode : string) (transcripts : list string)
  : list string :=
  match transcripts with
  | [] => []
  | t :: rest =>
      let mode := next_mode table mode t in
      mode :: mode_trace table mode rest
  end.

(** What the demo's fixtures make each mode say in one frame. *)
Definition demo_announcement (mode : string) : list string :=
  if String.eqb mode "navigation" then ["forward"]
  else if String.eqb mode "object_detection" then ["person"; "book"]
  else if String.eqb mode "reading" then ["Welcome to the campus library"]
  else [].

(** Do all code points of the text satisfy [p]? *)
Fixpoint all_chars (p : ascii -> bool) (s : string) : bool :=
  match s with
  | EmptyString => true
  | String c s' => p c && all_chars p s'
  end.

(** Does the text begin, or end, with whitespace? *)
Definition starts_with_space (s : string) : bool :=
  match s with
  | EmptyString => false
  | String c _ => isspace c
  end.

Fixpoint ends_with_space (s : string) : bool :=
  match s with
  | EmptyString => false
  | String c EmptyString => isspace c
  | String _ s' => ends_with_space s'
  end.

(** The messages one frame of the object-detection wrapper speaks. *)
Definition announcements (objects : list ObjectDetection.DetectedObject) : list string :=
  match objects with
  | [] => ["no objects detected"]
  | _ :: _ => map ObjectDetection.label objects
  end.

End Views.

(* ===================================================================== *)
(** * Facts about the Python runtime model *)
(* ===================================================================== *)

Section RuntimeFacts.
Import Py.

Lemma bind_ret {A B : Type} (a : A) (k : A -> result B) : bind (ret a) k = k a.
Proof. reflexivity. Qed.

Lemma float_lt_halves (a b : Z) :
  float_lt (inject_Z a / 2)%Q (inject_Z b / 2)%Q = (a <? b).
Proof.
  unfold float_lt.
  destruct (Z.ltb_spec a b) as [Hlt | Hge].
  - apply negb_true_iff. apply not_true_is_false. intros Hle.
    apply Qle_bool_iff in Hle. unfold Qle in Hle. simpl in Hle. lia.
  - apply negb_false_iff. apply Qle_bool_iff. unfold Qle. simpl. lia.
Qed.

Lemma float_lt_irrefl (x : float) : float_lt x x = false.
Proof.
  unfold float_lt. apply negb_false_iff. apply Qle_bool_iff. apply Qle_refl.
Qed.

Lemma bit_length_small (n : Z) :
  Z.abs n < 2 ^ DBL_MANT_DIG -> bit_length n <= DBL_MANT_DIG.
Proof.
  intros H. unfold bit_length, DBL_MANT_DIG in *.
  destruct (Z.eqb_spec n 0) as [-> | Hn]; [lia |].
  assert (Z.log2 (Z.abs n) < 53) by (apply Z.log2_lt_pow2; lia).
  lia.
Qed.

Lemma round_to_mantissa_exact (n : Z) :
  within_mantissa n -> round_to_mantissa n = n.
Proof.
  unfold within_mantissa. intros H.
  destruct (Z.eq_dec (Z.abs n) (2 ^ DBL_MANT_DIG)) as [Heq | Hne].
  - destruct (Z.abs_eq_or_opp n) as [E | E]; rewrite E in Heq.
    + subst n. vm_compute. reflexivity.
    + assert (n = - 2 ^ DBL_MANT_DIG) as -> by lia. vm_compute. reflexivity.
  - unfold round_to_mantissa.
    assert (Hb : bit_length n <= DBL_MANT_DIG) by (apply bit_length_small; lia).
    apply Z.leb_le in Hb. rewrite Hb. reflexivity.
Qed.

Lemma truediv_2_exact (n : Z) :
  within_mantissa n -> truediv_2 n = inr (inject_Z n / 2)%Q.
Proof.
  intros H. unfold truediv_2. rewrite (round_to_mantissa_exact n H).
  assert (Hlt : Z.abs n < 2 ^ (DBL_MAX_EXP + 1)).
  { apply Z.le_lt_trans with (1 := H).
    apply Z.pow_lt_mono_r; unfold DBL_MANT_DIG, DBL_MAX_EXP; lia. }
  apply Z.leb_gt in Hlt. rewrite Hlt. reflexivity.
Qed.

(** Rounding at work: ties go to the even mantissa, and the largest
    quotient that still fits is just below [2 ^ 1024]. *)
Example rounding_ties_to_even :
  round_to_mantissa (2 ^ 53 + 1) = 2 ^ 53 /\
  round_to_mantissa (2 ^ 53 + 2) = 2 ^ 53 + 2 /\
  round_to_mantissa (2 ^ 53 + 3) = 2 ^ 53 + 4 /\
  round_to_mantissa (- (2 ^ 53 + 3)) = - (2 ^ 53 + 4).
Proof. repeat split; vm_compute; reflexivity. Qed.

Example truediv_2_overflows_at_the_top :
  truediv_2 (2 ^ 1025 - 2 ^ 971 - 1) = inr (inject_Z (2 ^ 1025 - 2 ^ 972) / 2)%Q /\
  truediv_2 (2 ^ 1025 - 2 ^ 971)
  = inl (OverflowError "integer division result too large for a float").
Proof. split; vm_compute; reflexivity. Qed.

(** [truediv_2] either raises [OverflowError] or returns a float. *)
Lemma truediv_2_cases (n : Z) :
  (exists msg, truediv_2 n = inl (OverflowError msg)) \/
  (exists x, truediv_2 n = inr x).
Proof.
  unfold truediv_2.
  destruct (2 ^ (DBL_MAX_EXP + 1) <=? Z.abs (round_to_mantissa n)).
  - left. eexists. reflexivity.
  - right. eexists. reflexivity.
Qed.

End RuntimeFacts.

(* ===================================================================== *)
(** * The guidance heuristic *)
(* ===================================================================== *)

Section GuidanceFacts.
Import Py Navigation.

Lemma is_left_side_ltb (fw : Z) (o : Obstacle) :
  Spec.is_left_side fw o = (bbox_0 (bbox o) + bbox_2 (bbox o) <? fw).
Proof.
  unfold Spec.is_left_side, Spec.horizontal_center.
  destruct (Qlt_le_dec _ _) as [H | H]; unfold Qlt, Qle in H; simpl in H;
    symmetry; [apply Z.ltb_lt | apply Z.ltb_ge]; lia.
Qed.

(** Every obstacle falls on exactly one side. *)
Lemma side_counts_total (fw : Z) (obstacles : list Obstacle) :
  (Spec.left_side_count fw obstacles + Spec.right_side_count fw obstacles
   = List.length obstacles)%nat.
Proof.
  unfold Spec.left_side_count, Spec.right_side_count.
  induction obstacles as [| o rest IH]; simpl; [reflexivity |].
  destruct (Spec.is_left_side fw o); simpl; lia.
Qed.

(** Within the exact range the counting loop computes the counts of the
    specification, whatever the counters start from. *)
Lemma counting_loop_exact (fw : Z) (obstacles : list Obstacle) :
  within_mantissa fw ->
  Forall (fun o => within_mantissa (bbox_0 (bbox o) + bbox_2 (bbox o))) obstacles ->
  forall l r : Z,
    for_each (fun '(left_count, right_count) obstacle =>
      center_x <- truediv_2 (bbox_0 (bbox obstacle) + bbox_2 (bbox obstacle)) ;;
      half <- truediv_2 fw ;;
      if float_lt center_x half
      then ret (left_count + 1, right_count)
      else ret (left_count, right_count + 1))
    obstacles (l, r)
    = inr (l + Z.of_nat (Spec.left_side_count fw obstacles),
           r + Z.of_nat (Spec.right_side_count fw obstacles)).
Proof.
  intros Hfw Hall.
  match goal with |- forall l r, for_each ?b _ _ = _ => set (body := b) end.
  assert (Hstep : forall l r o,
             within_mantissa (bbox_0 (bbox o) + bbox_2 (bbox o)) ->
             body (l, r) o
             = inr (if bbox_0 (bbox o) + bbox_2 (bbox o) <? fw
                    then (l + 1, r) else (l, r + 1))).
  { intros l r o Ho. unfold body.
    rewrite (truediv_2_exact _ Ho), (truediv_2_exact _ Hfw). cbn [bind].
    rewrite float_lt_halves.
    destruct (bbox_0 (bbox o) + bbox_2 (bbox o) <? fw); reflexivity. }
  clearbody body.
  unfold Spec.left_side_count, Spec.right_side_count.
  induction Hall as [| o rest Ho _ IH]; intros l r.
  - simpl. unfold ret. f_equal. f_equal; lia.
  - cbn [for_each filter]. rewrite (Hstep l r o Ho), is_left_side_ltb. cbn [bind].
    destruct (bbox_0 (bbox o) + bbox_2 (bbox o) <? fw); cbn [negb];
      rewrite IH; cbn [List.length]; f_equal; f_equal; lia.
Qed.

Lemma choose_direction_counts_exact (fw : Z) (obstacles : list Obstacle) :
  within_mantissa fw ->
  Forall (fun o => within_mantissa (bbox_0 (bbox o) + bbox_2 (bbox o))) obstacles ->
  choose_direction_counts obstacles fw
  = inr (Z.of_nat (Spec.left_side_count fw obstacles),
         Z.of_nat (Spec.right_side_count fw obstacles)).
Proof.
  intros Hfw Hall. exact (counting_loop_exact fw obstacles Hfw Hall 0 0).
Qed.

(** The two copies of the heuristic agree once the width is positive. *)
Lemma compute_guidance_as_choose {C D : Type}
  (self : NavigationAssistant C D) (obstacles : list Obstacle) :
  0 < _frame_width self ->
  _compute_guidance self obstacles
  = choose_direction_from_obstacles obstacles (_frame_width self).
Proof.
  intros Hpos. unfold choose_direction_from_obstacles.
  assert (E : (_frame_width self <=? 0) = false) by (apply Z.leb_gt; exact Hpos).
  rewrite E. reflexivity.
Qed.

Lemma NavigationAssistant_init_ok {C D : Type}
  (camera : C) (detector : D) (audio : AudioRef) (frame_width : Z) :
  0 < frame_width ->
  NavigationAssistant_init camera detector audio frame_width
  = inr (mkNavigationAssistant camera detector audio frame_width).
Proof.
  intros Hpos. unfold NavigationAssistant_init.
  assert (E : (frame_width <=? 0) = false) by (apply Z.leb_gt; exact Hpos).
  rewrite E. reflexivity.
Qed.

(** What the free function returns within the exact range, in one
    equation. *)
Lemma choose_direction_exact (fw : Z) (obstacles : list Obstacle) :
  0 < fw -> within_mantissa fw ->
  Forall (fun o => within_mantissa (bbox_0 (bbox o) + bbox_2 (bbox o))) obstacles ->
  choose_direction_from_obstacles obstacles fw
  = inr (if is_nil obstacles then "forward"
         else if (Spec.right_side_count fw obstacles
                  <? Spec.left_side_count fw obstacles)%nat then "right"
         else if (Spec.left_side_count fw obstacles
                  <? Spec.right_side_count fw obstacles)%nat then "left"
         else "forward").
Proof.
  intros Hpos Hfw Hall. unfold choose_direction_from_obstacles.
  assert (E : (fw <=? 0) = false) by (apply Z.leb_gt; exact Hpos).
  rewrite E. cbv zeta.
  destruct (is_nil obstacles); [reflexivity |].
  rewrite (choose_direction_counts_exact fw obstacles Hfw Hall). cbn [bind].
  set (l := Spec.left_side_count fw obstacles).
  set (r := Spec.right_side_count fw obstacles).
  destruct (Nat.ltb_spec r l) as [H1 | H1].
  - assert (E1 : (Z.of_nat r <? Z.of_nat l) = true) by (apply Z.ltb_lt; lia).
    rewrite E1. reflexivity.
  - assert (E1 : (Z.of_nat r <? Z.of_nat l) = false) by (apply Z.ltb_ge; lia).
    rewrite E1.
    destruct (Nat.ltb_spec l r) as [H2 | H2].
    + assert (E2 : (Z.of_nat l <? Z.of_nat r) = true) by (apply Z.ltb_lt; lia).
      rewrite E2. reflexivity.
    + assert (E2 : (Z.of_nat l <? Z.of_nat r) = false) by (apply Z.ltb_ge; lia).
      rewrite E2. reflexivity.
Qed.

(** C1 (as amended): for every frame_width with 0 < frame_width <= 2^53 and
    every sequence of obstacles whose left + right is at most 2^53 in
    magnitude, the assistant is constructed and its guidance direction is
    the reference one: "forward" for the empty sequence, "right" when more
    centers (left + right) / 2 lie strictly below frame_width / 2 than not,
    "left" when fewer do. *)
Theorem guidance_matches_reference_within_mantissa :
  forall (C D : Type) (camera : C) (detector : D) (audio : AudioRef)
         (frame_width : Z) (obstacles : list Obstacle),
    0 < frame_width <= 2 ^ 53 ->
    Forall (fun o => Z.abs (bbox_0 (bbox o) + bbox_2 (bbox o)) <= 2 ^ 53) obstacles ->
    let self := mkNavigationAssistant camera detector audio frame_width in
    NavigationAssistant_init camera detector audio frame_width = inr self /\
    (obstacles = [] -> _compute_guidance self obstacles = inr "forward") /\
    ((Spec.right_side_count frame_width obstacles
      < Spec.left_side_count frame_width obstacles)%nat ->
     _compute_guidance self obstacles = inr "right") /\
    ((Spec.left_side_count frame_width obstacles
      < Spec.right_side_count frame_width obstacles)%nat ->
     _compute_guidance self obstacles = inr "left").
Proof.
  intros C D camera detector audio fw obstacles [Hpos Hmax] Hall self.
  split; [apply NavigationAssistant_init_ok; exact Hpos |].
  assert (Hfw : within_mantissa fw) by (unfold within_mantissa, DBL_MANT_DIG; lia).
  assert (Heq : _compute_guidance self obstacles
                = choose_direction_from_obstacles obstacles fw)
    by (apply (compute_guidance_as_choose self); exact Hpos).
  rewrite Heq, (choose_direction_exact fw obstacles Hpos Hfw Hall).
  repeat split.
  - intros ->. reflexivity.
  - intros Hlt.
    destruct obstacles as [| o rest]; [cbv in Hlt; lia |]. cbn [is_nil].
    apply Nat.ltb_lt in Hlt. rewrite Hlt. reflexivity.
  - intros Hlt.
    destruct obstacles as [| o rest]; [cbv in Hlt; lia |]. cbn [is_nil].
    assert (E : (Spec.right_side_count fw (o :: rest)
                 <? Spec.left_side_count fw (o :: rest))%nat = false)
      by (apply Nat.ltb_ge; lia).
    rewrite E. apply Nat.ltb_lt in Hlt. rewrite Hlt. reflexivity.
Qed.

Lemma guidance_matches_reference_witness :
  NavigationAssistant_init tt tt 0%nat 320 = inr (Examples.assistant 320) /\
  _compute_guidance (Examples.assistant 320) [Examples.spanning 20 80] = inr "right".
Proof.
  destruct (guidance_matches_reference_within_mantissa unit unit tt tt 0%nat 320
              [Examples.spanning 20 80]) as [Hinit [_ [Hright _]]].
  - split; [reflexivity | vm_compute; discriminate].
  - repeat constructor. vm_compute. discriminate.
  - split; [exact Hinit | apply Hright; vm_compute; lia].
Defined.

(** C1 (as stated) fails past 2^53: with frame_width = 2^53 + 1 and one
    obstacle whose left + right is 2^53, the center 2^52 lies strictly below
    the midpoint 2^52 + 1/2, so the reference counts it left-side and asks
    for "right"; in floating point both quotients are 2^52, the obstacle is
    counted right-side and the assistant answers "left". *)
Lemma guidance_departs_from_reference_past_2_53 :
  0 < Examples.two_53 + 1 /\
  NavigationAssistant_init tt tt 0%nat (Examples.two_53 + 1)
  = inr (Examples.assistant (Examples.two_53 + 1)) /\
  (Spec.right_side_count (Examples.two_53 + 1) [Examples.spanning 0 Examples.two_53]
   < Spec.left_side_count (Examples.two_53 + 1) [Examples.spanning 0 Examples.two_53])%nat /\
  _compute_guidance (Examples.assistant (Examples.two_53 + 1))
    [Examples.spanning 0 Examples.two_53] = inr "left" /\
  _compute_guidance (Examples.assistant (Examples.two_53 + 1))
    [Examples.spanning 0 Examples.two_53] <> inr "right".
Proof.
  assert (Hrun : _compute_guidance (Examples.assistant (Examples.two_53 + 1))
                   [Examples.spanning 0 Examples.two_53] = inr "left")
    by (vm_compute; reflexivity).
  split; [reflexivity |].
  split; [reflexivity |].
  split; [vm_compute; lia |].
  split; [exact Hrun |].
  rewrite Hrun. discriminate.
Qed.

(** C2 (as stated) fails on its own example: one obstacle centered exactly
    at the midpoint is not below it, is counted right-side, and the
    direction is "left", not "forward". *)
Lemma single_centered_obstacle_is_not_forward :
  (Spec.horizontal_center (Examples.spanning 100 220) == inject_Z 320 / 2)%Q /\
  NavigationAssistant_init tt tt 0%nat 320 = inr (Examples.assistant 320) /\
  _compute_guidance (Examples.assistant 320) [Examples.spanning 100 220] = inr "left" /\
  choose_direction_from_obstacles [Examples.spanning 100 220] 320 = inr "left" /\
  _compute_guidance (Examples.assistant 320) [Examples.spanning 100 220] <> inr "forward" /\
  choose_direction_from_obstacles [Examples.spanning 100 220] 320 <> inr "forward".
Proof.
  assert (Hcg : _compute_guidance (Examples.assistant 320) [Examples.spanning 100 220]
                = inr "left") by (vm_compute; reflexivity).
  assert (Hch : choose_direction_from_obstacles [Examples.spanning 100 220] 320
                = inr "left") by (vm_compute; reflexivity).
  split; [reflexivity |].
  split; [reflexivity |].
  split; [exact Hcg |].
  split; [exact Hch |].
  split; [rewrite Hcg | rewrite Hch]; discriminate.
Qed.

(** The last three lines of either function: a tie is "forward". *)
Lemma tie_decides_forward (n : Z) :
  (if n <? n then ret "right" else if n <? n then ret "left" else ret "forward")
  = (inr "forward" : result string).
Proof. rewrite Z.ltb_irrefl. reflexivity. Qed.

(** C2 (as amended): for every sequence of obstacles and every
    frame_width > 0, whenever the left-side and right-side counts the
    heuristic arrives at are equal the direction is "forward", in the
    assistant and in the free function alike (up to 2^53 these are the
    counts of the centers strictly below, and not below, frame_width / 2);
    a single obstacle never ties: when its center (left + right) / 2 equals
    exactly frame_width / 2 it is counted right-side and the direction is
    "left" (or the division raises OverflowError when frame_width / 2 is
    beyond the floats). *)
Theorem equal_counts_forward_centered_single_left :
  forall (C D : Type) (camera : C) (detector : D) (audio : AudioRef)
         (frame_width : Z) (obstacles : list Obstacle),
    0 < frame_width ->
    let self := mkNavigationAssistant camera detector audio frame_width in
    NavigationAssistant_init camera detector audio frame_width = inr self /\
    (forall l r, _compute_guidance_counts self obstacles = inr (l, r) -> l = r ->
       _compute_guidance self obstacles = inr "forward") /\
    (forall l r, choose_direction_counts obstacles frame_width = inr (l, r) -> l = r ->
       choose_direction_from_obstacles obstacles frame_width = inr "forward") /\
    (frame_width <= 2 ^ 53 ->
     Forall (fun o => Z.abs (bbox_0 (bbox o) + bbox_2 (bbox o)) <= 2 ^ 53) obstacles ->
     Spec.left_side_count frame_width obstacles
     = Spec.right_side_count frame_width obstacles ->
     _compute_guidance self obstacles = inr "forward" /\
     choose_direction_from_obstacles obstacles frame_width = inr "forward") /\
    (forall o, bbox_0 (bbox o) + bbox_2 (bbox o) = frame_width ->
       (_compute_guidance self [o] = inr "left" /\
        choose_direction_from_obstacles [o] frame_width = inr "left") \/
       (exists msg,
          _compute_guidance self [o] = inl (OverflowError msg) /\
          choose_direction_from_obstacles [o] frame_width = inl (OverflowError msg))).
Proof.
  intros C D camera detector audio fw obstacles Hpos self.
  assert (E : (fw <=? 0) = false) by (apply Z.leb_gt; exact Hpos).
  split; [apply NavigationAssistant_init_ok; exact Hpos |].
  split; [| split; [| split]].
  - intros l r Hcount <-. unfold _compute_guidance.
    destruct (is_nil obstacles); [reflexivity |].
    rewrite Hcount. cbn [bind]. apply tie_decides_forward.
  - intros l r Hcount <-. unfold choose_direction_from_obstacles.
    rewrite E. cbv zeta. destruct (is_nil obstacles); [reflexivity |].
    rewrite Hcount. cbn [bind]. apply tie_decides_forward.
  - intros Hmax Hall Htie.
    assert (Hfw : within_mantissa fw) by (unfold within_mantissa, DBL_MANT_DIG; lia).
    assert (Heq : _compute_guidance self obstacles
                  = choose_direction_from_obstacles obstacles fw)
      by (apply (compute_guidance_as_choose self); exact Hpos).
    rewrite Heq, (choose_direction_exact fw obstacles Hpos Hfw Hall), Htie.
    rewrite Nat.ltb_irrefl. destruct (is_nil obstacles); split; reflexivity.
  - intros o Hsum.
    assert (Heq : _compute_guidance self [o] = choose_direction_from_obstacles [o] fw)
      by (apply (compute_guidance_as_choose self); exact Hpos).
    rewrite Heq. unfold choose_direction_from_obstacles, choose_direction_counts.
    rewrite E. cbn [is_nil for_each]. rewrite Hsum.
    destruct (truediv_2_cases fw) as [[msg Hov] | [x Hx]].
    + right. exists msg. rewrite Hov. split; reflexivity.
    + left. rewrite Hx. cbn [bind]. rewrite float_lt_irrefl. split; reflexivity.
Qed.

Lemma equal_counts_forward_witness :
  NavigationAssistant_init tt tt 0%nat 320 = inr (Examples.assistant 320) /\
  _compute_guidance (Examples.assistant 320)
    [Examples.spanning 0 60; Examples.spanning 200 320] = inr "forward" /\
  choose_direction_from_obstacles
    [Examples.spanning 0 60; Examples.spanning 200 320] 320 = inr "forward" /\
  (_compute_guidance (Examples.assistant 320)
     [Examples.spanning 0 60; Examples.spanning 200 320] = inr "forward" /\
   choose_direction_from_obstacles
     [Examples.spanning 0 60; Examples.spanning 200 320] 320 = inr "forward") /\
  _compute_guidance (Examples.assistant 320) [Examples.spanning 100 220] = inr "left".
Proof.
  destruct (equal_counts_forward_centered_single_left unit unit tt tt 0%nat 320
              [Examples.spanning 0 60; Examples.spanning 200 320])
    as [Hinit [Hcg [Hch [Hspec Hone]]]].
  - reflexivity.
  - split; [exact Hinit |].
    split; [apply (Hcg 1 1); reflexivity |].
    split; [apply (Hch 1 1); reflexivity |].
    split.
    { apply Hspec.
      - vm_compute. discriminate.
      - repeat constructor; vm_compute; discriminate.
      - reflexivity. }
    destruct (Hone (Examples.spanning 100 220)) as [[Hleft _] | [msg [Hov _]]].
    + reflexivity.
    + exact Hleft.
    + vm_compute in Hov. discriminate Hov.
Defined.

(** C4: for every sequence of obstacles and every frame_width > 0 the
    assistant is constructed and its guidance computation returns exactly
    what the free function choose_direction_from_obstacles returns on the
    same obstacles and width: the same direction, or the same exception. *)
Theorem assistant_and_free_function_agree :
  forall (C D : Type) (camera : C) (detector : D) (audio : AudioRef)
         (frame_width : Z) (obstacles : list Obstacle),
    0 < frame_width ->
    let self := mkNavigationAssistant camera detector audio frame_width in
    NavigationAssistant_init camera detector audio frame_width = inr self /\
    _compute_guidance self obstacles
    = choose_direction_from_obstacles obstacles frame_width.
Proof.
  intros C D camera detector audio fw obstacles Hpos self. split.
  - apply NavigationAssistant_init_ok. exact Hpos.
  - apply (compute_guidance_as_choose self). exact Hpos.
Qed.

Lemma assistant_and_free_function_agree_witness :
  NavigationAssistant_init tt tt 0%nat 320 = inr (Examples.assistant 320) /\
  _compute_guidance (Examples.assistant 320)
    [Examples.spanning 20 80; Examples.spanning 200 260]
  = choose_direction_from_obstacles
      [Examples.spanning 20 80; Examples.spanning 200 260] 320.
Proof.
  apply (assistant_and_free_function_agree unit unit tt tt 0%nat 320
           [Examples.spanning 20 80; Examples.spanning 200 260]).
  reflexivity.
Defined.

(** C5: for every frame_width <= 0 both forms fail with the same
    ValueError whatever the obstacles: constructing a NavigationAssistant
    raises it for any backends, and choose_direction_from_obstacles raises
    it for every obstacle sequence, the empty one included. *)
Theorem non_positive_width_is_rejected :
  forall frame_width : Z,
    frame_width <= 0 ->
    (forall (C D : Type) (camera : C) (detector : D) (audio : AudioRef),
       NavigationAssistant_init camera detector audio frame_width
       = inl (ValueError "frame_width must be positive")) /\
    (forall obstacles : list Obstacle,
       choose_direction_from_obstacles obstacles frame_width
       = inl (ValueError "frame_width must be positive")).
Proof.
  intros fw Hle.
  assert (E : (fw <=? 0) = true) by (apply Z.leb_le; exact Hle).
  split.
  - intros C D camera detector audio. unfold NavigationAssistant_init.
    rewrite E. reflexivity.
  - intros obstacles. unfold choose_direction_from_obstacles.
    rewrite E. reflexivity.
Qed.

Lemma non_positive_width_is_rejected_witness :
  NavigationAssistant_init tt tt 0%nat 0
  = (inl (ValueError "frame_width must be positive")
     : result (NavigationAssistant unit unit)) /\
  choose_direction_from_obstacles [] 0
  = inl (ValueError "frame_width must be positive") /\
  choose_direction_from_obstacles [Examples.spanning 20 80] (-320)
  = inl (ValueError "frame_width must be positive").
Proof.
  split; [| split].
  - apply (non_positive_width_is_rejected 0); lia.
  - apply (non_positive_width_is_rejected 0); lia.
  - apply (non_positive_width_is_rejected (-320)); lia.
Defined.

(** The worked examples of the specification. *)
Example centers_30_and_260 :
  choose_direction_from_obstacles
    [Examples.spanning 0 60; Examples.spanning 200 320] 320 = inr "forward".
Proof. reflexivity. Qed.

Example default_fixture_is_forward :
  choose_direction_from_obstacles
    [mkObstacle (mkBBox 20 0 80 60) "chair" (91 # 100);
     mkObstacle (mkBBox 200 0 260 80) "desk" (87 # 100)] 320 = inr "forward".
Proof. reflexivity. Qed.

Example empty_sequence_is_forward :
  choose_direction_from_obstacles [] 320 = inr "forward".
Proof. reflexivity. Qed.

End GuidanceFacts.

(* ===================================================================== *)
(** * The mode matcher *)
(* ===================================================================== *)

Section MatcherFacts.
Import Py VoiceAssistance.

Lemma str_in_In (x : string) (xs : list string) : str_in x xs = true <-> In x xs.
Proof.
  unfold str_in. rewrite existsb_exists. split.
  - intros [y [Hy Heq]]. apply String.eqb_eq in Heq. subst y. exact Hy.
  - intros Hx. exists x. split; [exact Hx | apply String.eqb_refl].
Qed.

Lemma str_in_not_In (x : string) (xs : list string) : str_in x xs = false <-> ~ In x xs.
Proof.
  rewrite <- str_in_In. destruct (str_in x xs); split; intros H; congruence.
Qed.

Lemma modes_are_truthy (m : string) : In m MODES -> str_truthy m = true.
Proof.
  unfold MODES. cbn [In]. intros [<- | [<- | [<- | []]]]; reflexivity.
Qed.

(** [__post_init__] returns exactly on the valid tables. *)
Lemma post_init_returns_iff (table : PhraseTable) :
  __post_init__ table = inr tt <-> Spec.valid_table table.
Proof.
  unfold Spec.valid_table. induction table as [| [mode phrases] rest IH]; cbn [__post_init__].
  - split; [constructor | reflexivity].
  - destruct (str_in mode MODES) eqn:Hin; cbn [negb].
    + rewrite IH. apply str_in_In in Hin. split.
      * intros Hrest. constructor; assumption.
      * intros Hall. inversion Hall; assumption.
    + apply str_in_not_In in Hin. split; [discriminate |].
      intros Hall. inversion Hall; subst. contradiction.
Qed.

(** [__post_init__] raises for the first key outside [MODES]. *)
Lemma post_init_raises (table : PhraseTable) :
  ~ Spec.valid_table table ->
  exists mode, In mode (map fst table) /\ ~ In mode MODES /\
    __post_init__ table = inl (ValueError ("Unsupported mode: " ++ mode)).
Proof.
  unfold Spec.valid_table. induction table as [| [mode phrases] rest IH]; intros Hbad.
  - exfalso. apply Hbad. constructor.
  - cbn [__post_init__ map fst]. destruct (str_in mode MODES) eqn:Hin; cbn [negb].
    + apply str_in_In in Hin.
      destruct IH as [m [Hm [Hout Herr]]].
      { intros Hall. apply Hbad. constructor; assumption. }
      exists m. split; [right; exact Hm | split; assumption].
    + apply str_in_not_In in Hin. exists mode.
      split; [left; reflexivity | split; [exact Hin | reflexivity]].
Qed.

Lemma CommandConfig_init_valid (table : option PhraseTable) (cfg : CommandConfig) :
  CommandConfig_init table = inr cfg -> Spec.valid_table (phrases_by_mode cfg).
Proof.
  unfold CommandConfig_init.
  set (t := match table with Some t => t | None => default_phrases_by_mode end).
  destruct (__post_init__ t) as [e | []] eqn:Hpost; cbn [bind]; [discriminate |].
  intros Heq. injection Heq as <-. cbn [phrases_by_mode].
  apply post_init_returns_iff. exact Hpost.
Qed.

Lemma any_phrase_in_true (phrases : list string) (t : string) :
  any_phrase_in phrases t = true <-> exists p, In p phrases /\ contains p t = true.
Proof.
  induction phrases as [| q rest IH]; cbn [any_phrase_in].
  - split; [discriminate | intros [p [[] _]]].
  - destruct (contains q t) eqn:Hq.
    + split; [| reflexivity]. intros _. exists q. split; [left; reflexivity | exact Hq].
    + rewrite IH. split.
      * intros [p [Hp Hc]]. exists p. split; [right; exact Hp | exact Hc].
      * intros [p [[-> | Hp] Hc]]; [congruence |]. exists p. split; assumption.
Qed.

Lemma any_phrase_in_false (phrases : list string) (t : string) :
  any_phrase_in phrases t = false <-> forall p, In p phrases -> contains p t = false.
Proof.
  split.
  - intros Hnone p Hp. destruct (contains p t) eqn:Hc; [| reflexivity].
    assert (any_phrase_in phrases t = true) by (apply any_phrase_in_true; eauto).
    congruence.
  - intros Hall. destruct (any_phrase_in phrases t) eqn:Hany; [| reflexivity].
    apply any_phrase_in_true in Hany. destruct Hany as [p [Hp Hc]].
    rewrite (Hall p Hp) in Hc. discriminate.
Qed.

(** The matcher finds nothing exactly when no phrase occurs. *)
Lemma match_items_none (items : PhraseTable) (t : string) :
  match_items items t = None <-> Spec.no_phrase_occurs items t.
Proof.
  unfold Spec.no_phrase_occurs.
  induction items as [| [mode phrases] rest IH]; cbn [match_items].
  - split; [intros _ m ps p [] | reflexivity].
  - destruct (any_phrase_in phrases t) eqn:Hany.
    + split; [discriminate |]. intros Hnone. exfalso.
      apply any_phrase_in_true in Hany. destruct Hany as [p [Hp Hc]].
      rewrite (Hnone mode phrases p (or_introl eq_refl) Hp) in Hc. discriminate.
    + rewrite IH. split.
      * intros Hrest m ps p [Heq | Hin] Hp.
        -- injection Heq as <- <-.
           apply (proj1 (any_phrase_in_false phrases t) Hany). exact Hp.
        -- apply (Hrest m ps p Hin Hp).
      * intros Hall m ps p Hin Hp. apply (Hall m ps p (or_intror Hin) Hp).
Qed.

(** Items without an occurring phrase are skipped. *)
Lemma match_items_skip (before rest : PhraseTable) (t : string) :
  Spec.no_phrase_occurs before t ->
  match_items (before ++ rest)%list t = match_items rest t.
Proof.
  induction before as [| [mode phrases] before' IH]; intros Hnone; [reflexivity |].
  cbn [app match_items].
  assert (Hany : any_phrase_in phrases t = false).
  { apply any_phrase_in_false. intros p Hp.
    apply (Hnone mode phrases p (or_introl eq_refl) Hp). }
  rewrite Hany. apply IH.
  intros m ps p Hin Hp. apply (Hnone m ps p (or_intror Hin) Hp).
Qed.

(** A match is the first item, in table order, with an occurring phrase. *)
Lemma match_items_some (items : PhraseTable) (t mode : string) :
  match_items items t = Some mode ->
  exists before phrases after,
    items = (before ++ (mode, phrases) :: after)%list /\
    Spec.no_phrase_occurs before t /\
    exists p, In p phrases /\ contains p t = true.
Proof.
  induction items as [| [m ps] rest IH]; cbn [match_items]; [discriminate |].
  destruct (any_phrase_in ps t) eqn:Hany.
  - intros Heq. injection Heq as ->.
    exists [], ps, rest. split; [reflexivity |]. split.
    + intros m' ps' p [].
    + apply any_phrase_in_true. exact Hany.
  - intros Hrest. destruct (IH Hrest) as [before [phrases [after [Heq [Hnone Hsome]]]]].
    exists ((m, ps) :: before), phrases, after. split; [rewrite Heq; reflexivity |].
    split; [| exact Hsome].
    intros m' ps' p [Hhead | Hin] Hp.
    + injection Hhead as <- <-.
      apply (proj1 (any_phrase_in_false ps t) Hany). exact Hp.
    + apply (Hnone m' ps' p Hin Hp).
Qed.

Lemma match_items_key (items : PhraseTable) (t mode : string) :
  match_items items t = Some mode -> In mode (map fst items).
Proof.
  intros Hm. destruct (match_items_some items t mode Hm)
    as [before [phrases [after [-> _]]]].
  rewrite map_app. apply in_or_app. right. left. reflexivity.
Qed.

Lemma valid_table_key (table : PhraseTable) (mode : string) :
  Spec.valid_table table -> In mode (map fst table) -> In mode MODES.
Proof.
  unfold Spec.valid_table. intros Hall Hin.
  apply in_map_iff in Hin. destruct Hin as [item [<- Hitem]].
  apply (proj1 (Forall_forall _ _) Hall item Hitem).
Qed.

(** [handle_transcript] in one equation per outcome of the matcher. *)
Lemma handle_transcript_no_match {T : Type} (self : VoiceAssistant T) (t : string) :
  _match_mode self (normalize t) = None ->
  handle_transcript self t = (mkModeSwitchResult t None (_active_mode self), self).
Proof.
  intros Hm. unfold handle_transcript. cbv zeta. rewrite Hm. reflexivity.
Qed.

Lemma handle_transcript_match {T : Type} (self : VoiceAssistant T) (t mode : string) :
  _match_mode self (normalize t) = Some mode -> str_truthy mode = true ->
  handle_transcript self t
  = (mkModeSwitchResult t (Some mode) mode,
     mkVoiceAssistant (_transcriber self) (_command_config self) mode).
Proof.
  intros Hm Htruthy. unfold handle_transcript. cbv zeta. rewrite Hm.
  cbn [opt_str_truthy]. rewrite Htruthy. reflexivity.
Qed.

End MatcherFacts.

Section AssistantFacts.
Import Py VoiceAssistance.

Lemma handle_transcript_well_formed {T : Type} (self : VoiceAssistant T) (t : string) :
  Spec.well_formed self -> Spec.well_formed (snd (handle_transcript self t)).
Proof.
  intros [Htable Hmode].
  destruct (_match_mode self (normalize t)) as [m |] eqn:Hm.
  - assert (Hin : In m MODES).
    { apply (valid_table_key _ m Htable). apply (match_items_key _ _ _ Hm). }
    rewrite (handle_transcript_match self t m Hm (modes_are_truthy m Hin)).
    split; assumption.
  - rewrite (handle_transcript_no_match self t Hm). split; assumption.
Qed.

Lemma listen_and_handle_well_formed {T : Type} `{Transcriber T}
  (self : VoiceAssistant T) (src : AudioSource) :
  Spec.well_formed self -> Spec.well_formed (snd (listen_and_handle self src)).
Proof.
  intros Hwf. unfold listen_and_handle.
  destruct (listen (_transcriber self) src) as [[e | t] transcriber].
  - exact Hwf.
  - set (self' := mkVoiceAssistant transcriber (_command_config self) (_active_mode self)).
    assert (Hwf' : Spec.well_formed self') by exact Hwf.
    pose proof (handle_transcript_well_formed self' t Hwf') as Hnext.
    destruct (handle_transcript self' t) as [res self'']. exact Hnext.
Qed.

Lemma do_calls_well_formed {T : Type} `{Transcriber T}
  (calls : list Call) (self : VoiceAssistant T) :
  Spec.well_formed self -> Spec.well_formed (do_calls self calls).
Proof.
  unfold do_calls. revert self.
  induction calls as [| c rest IH]; intros self Hwf; [exact Hwf |].
  cbn [fold_left]. apply IH. destruct c as [t | src]; cbn [do_call].
  - apply handle_transcript_well_formed. exact Hwf.
  - apply listen_and_handle_well_formed. exact Hwf.
Qed.

Lemma VoiceAssistant_init_well_formed {T : Type}
  (transcriber : T) (command_config : option CommandConfig) (initial_mode : string)
  (self : VoiceAssistant T) :
  (forall cfg, command_config = Some cfg ->
     exists table, CommandConfig_init table = inr cfg) ->
  VoiceAssistant_init transcriber command_config initial_mode = inr self ->
  Spec.well_formed self.
Proof.
  intros Hcfg. unfold VoiceAssistant_init.
  destruct (str_in initial_mode MODES) eqn:Hin; cbn [negb]; [| discriminate].
  apply str_in_In in Hin.
  destruct command_config as [cfg |].
  - cbn [bind ret]. intros Heq. injection Heq as <-.
    destruct (Hcfg cfg eq_refl) as [table Htable].
    split; [exact (CommandConfig_init_valid table cfg Htable) | exact Hin].
  - destruct (CommandConfig_init None) as [e | cfg] eqn:Hdefault; cbn [bind];
      [discriminate |].
    intros Heq. injection Heq as <-.
    split; [exact (CommandConfig_init_valid None cfg Hdefault) | exact Hin].
Qed.

(** C3 (as stated) fails when phrases of two modes occur: "reading" is a
    phrase of the reading mode and occurs in the normalized transcript,
    yet the matcher returns navigation, whose phrase "navigation" occurs
    too and whose entry comes first in the table. *)
Lemma occurring_phrase_of_later_mode_is_overruled :
  VoiceAssistant_init (Main.ScriptedTranscriber_init []) None "object_detection"
  = inr (Examples.listener [] "object_detection") /\
  In ("reading", ["reading mode"; "switch to reading"; "reading"; "read mode"])
     (phrases_by_mode (_command_config (Examples.listener [] "object_detection"))) /\
  contains "reading" (normalize "Reading about NAVIGATION") = true /\
  handle_transcript (Examples.listener [] "object_detection") "Reading about NAVIGATION"
  = (mkModeSwitchResult "Reading about NAVIGATION" (Some "navigation") "navigation",
     Examples.listener [] "navigation") /\
  matched_command
    (fst (handle_transcript (Examples.listener [] "object_detection")
            "Reading about NAVIGATION")) <> Some "reading" /\
  _active_mode
    (snd (handle_transcript (Examples.listener [] "object_detection")
            "Reading about NAVIGATION")) <> "reading".
Proof.
  assert (Hrun : handle_transcript (Examples.listener [] "object_detection")
                   "Reading about NAVIGATION"
                 = (mkModeSwitchResult "Reading about NAVIGATION"
                      (Some "navigation") "navigation",
                    Examples.listener [] "navigation"))
    by (vm_compute; reflexivity).
  split; [reflexivity |].
  split; [right; right; left; reflexivity |].
  split; [reflexivity |].
  split; [exact Hrun |].
  rewrite Hrun. split; discriminate.
Qed.

(** C3 (as amended): for every transcript and every phrase configured for
    some mode in a valid phrase table, if that phrase occurs in the
    normalized transcript then the matcher returns the first mode, in
    table order, one of whose phrases occurs there, and the active mode is
    updated to the returned mode; the returned mode is that phrase's mode
    whenever no phrase of an earlier table entry occurs. *)
Theorem first_occurring_phrase_decides_mode :
  forall (T : Type) (self : VoiceAssistant T)
         (transcript mode phrase : string) (phrases : list string),
    Spec.valid_table (phrases_by_mode (_command_config self)) ->
    In (mode, phrases) (phrases_by_mode (_command_config self)) ->
    In phrase phrases ->
    contains phrase (normalize transcript) = true ->
    exists before mode' phrases' after,
      phrases_by_mode (_command_config self)
      = (before ++ (mode', phrases') :: after)%list /\
      Spec.no_phrase_occurs before (normalize transcript) /\
      (exists p, In p phrases' /\ contains p (normalize transcript) = true) /\
      _match_mode self (normalize transcript) = Some mode' /\
      handle_transcript self transcript
      = (mkModeSwitchResult transcript (Some mode') mode',
         mkVoiceAssistant (_transcriber self) (_command_config self) mode') /\
      (forall b a,
         phrases_by_mode (_command_config self) = (b ++ (mode, phrases) :: a)%list ->
         Spec.no_phrase_occurs b (normalize transcript) ->
         mode' = mode).
Proof.
  intros T self transcript mode phrase phrases Hvalid Hitem Hphrase Hocc.
  destruct (_match_mode self (normalize transcript)) as [m |] eqn:Hm.
  - destruct (match_items_some _ _ _ Hm) as [before [ps [after [Heq [Hnone Hsome]]]]].
    exists before, m, ps, after.
    split; [exact Heq |]. split; [exact Hnone |]. split; [exact Hsome |].
    split; [reflexivity |]. split.
    + apply handle_transcript_match; [exact Hm |].
      apply modes_are_truthy. apply (valid_table_key _ m Hvalid).
      apply (match_items_key _ _ _ Hm).
    + intros b a Hsplit Hb. unfold _match_mode in Hm. rewrite Hsplit in Hm.
      rewrite (match_items_skip b _ _ Hb) in Hm. cbn [match_items] in Hm.
      assert (Hany : any_phrase_in phrases (normalize transcript) = true)
        by (apply any_phrase_in_true; exists phrase; split; assumption).
      rewrite Hany in Hm. injection Hm as <-. reflexivity.
  - exfalso. apply match_items_none in Hm.
    rewrite (Hm mode phrases phrase Hitem Hphrase) in Hocc. discriminate.
Qed.

Lemma first_occurring_phrase_witness :
  handle_transcript (Examples.listener [] "navigation") "  SWITCH   TO Reading "
  = (mkModeSwitchResult "  SWITCH   TO Reading " (Some "reading") "reading",
     Examples.listener [] "reading").
Proof.
  destruct (first_occurring_phrase_decides_mode _
              (Examples.listener [] "navigation") "  SWITCH   TO Reading "
              "reading" "switch to reading"
              ["reading mode"; "switch to reading"; "reading"; "read mode"])
    as [before [mode' [phrases' [after [_ [_ [_ [_ [Hrun Hown]]]]]]]]].
  - repeat constructor; cbn; tauto.
  - right; right; left; reflexivity.
  - right; left; reflexivity.
  - reflexivity.
  - rewrite Hrun.
    rewrite (Hown [("navigation",
                     ["navigation mode"; "switch to navigation"; "navigation"]);
                   ("object_detection",
                     ["object detection mode"; "switch to object detection";
                      "object detection"; "object mode"])] []).
    + reflexivity.
    + reflexivity.
    + apply match_items_none. reflexivity.
Defined.

(** C6: for every transcript whose normalization contains no configured
    phrase of any mode, handle_transcript reports no matched command,
    reports the active mode it started with, and leaves the assistant --
    its active mode included -- as it was. *)
Theorem unmatched_transcript_keeps_mode :
  forall (T : Type) (self : VoiceAssistant T) (transcript : string),
    Spec.no_phrase_occurs (phrases_by_mode (_command_config self))
                          (normalize transcript) ->
    handle_transcript self transcript
    = (mkModeSwitchResult transcript None (_active_mode self), self) /\
    matched_command (fst (handle_transcript self transcript)) = None /\
    _active_mode (snd (handle_transcript self transcript)) = _active_mode self.
Proof.
  intros T self transcript Hnone.
  assert (Hm : _match_mode self (normalize transcript) = None)
    by (apply match_items_none; exact Hnone).
  rewrite (handle_transcript_no_match self transcript Hm).
  split; [reflexivity | split; reflexivity].
Qed.

Lemma unmatched_transcript_witness :
  handle_transcript (Examples.listener [] "reading") "Good  Morning"
  = (mkModeSwitchResult "Good  Morning" None "reading", Examples.listener [] "reading").
Proof.
  apply (unmatched_transcript_keeps_mode _ (Examples.listener [] "reading")
           "Good  Morning").
  apply match_items_none. reflexivity.
Defined.

(** C8: a phrase table with a mode key outside
    {navigation, object_detection, reading} makes the construction of the
    command configuration raise ValueError (naming such a key), and an
    initial mode outside that set makes the construction of the voice
    assistant raise ValueError; in both cases the constructor itself
    fails and no object is built. *)
Theorem unsupported_modes_fail_at_construction :
  (forall table : PhraseTable,
     (exists mode, In mode (map fst table) /\ ~ In mode MODES) ->
     exists mode, In mode (map fst table) /\ ~ In mode MODES /\
       CommandConfig_init (Some table)
       = inl (ValueError ("Unsupported mode: " ++ mode))) /\
  (forall (T : Type) (transcriber : T) (command_config : option CommandConfig)
          (initial_mode : string),
     ~ In initial_mode MODES ->
     VoiceAssistant_init transcriber command_config initial_mode
     = inl (ValueError ("Unsupported initial mode: " ++ initial_mode))).
Proof.
  split.
  - intros table [bad [Hkey Hout]].
    destruct (post_init_raises table) as [mode [Hmode [Hmode_out Herr]]].
    + intros Hvalid. apply Hout. apply (valid_table_key table bad Hvalid Hkey).
    + exists mode. split; [exact Hmode |]. split; [exact Hmode_out |].
      unfold CommandConfig_init. rewrite Herr. reflexivity.
  - intros T transcriber command_config initial_mode Hout.
    unfold VoiceAssistant_init.
    apply str_in_not_In in Hout. rewrite Hout. reflexivity.
Qed.

Lemma unsupported_modes_witness :
  (exists mode, ~ In mode MODES /\
     CommandConfig_init (Some [("navigation", ["go"]); ("music", ["play"])])
     = inl (ValueError ("Unsupported mode: " ++ mode))) /\
  VoiceAssistant_init mkBaseTranscriber None "music"
  = inl (ValueError "Unsupported initial mode: music").
Proof.
  destruct unsupported_modes_fail_at_construction as [Htable Hmode]. split.
  - destruct (Htable [("navigation", ["go"]); ("music", ["play"])])
      as [mode [_ [Hout Herr]]].
    + exists "music". split; [right; left; reflexivity |].
      cbn. intros [H | [H | [H | []]]]; discriminate H.
    + exists mode. split; assumption.
  - apply (Hmode _ mkBaseTranscriber None "music").
    cbn. intros [H | [H | [H | []]]]; discriminate H.
Defined.

(** C10: for every voice assistant that was constructed -- an initial mode
    accepted by the constructor and a command configuration that is
    either the default or one its own constructor returned -- the active
    mode is one of navigation, object_detection, reading, at first and
    after every sequence of handle_transcript and listen_and_handle
    calls. *)
Theorem active_mode_always_supported :
  forall (T : Type) (transcriber_listen : Transcriber T) (transcriber : T)
         (command_config : option CommandConfig) (initial_mode : string)
         (self : VoiceAssistant T),
    (forall cfg, command_config = Some cfg ->
       exists table, CommandConfig_init table = inr cfg) ->
    VoiceAssistant_init transcriber command_config initial_mode = inr self ->
    In (_active_mode self) MODES /\
    forall calls : list Call, In (_active_mode (do_calls self calls)) MODES.
Proof.
  intros T transcriber_listen transcriber command_config initial_mode self Hcfg Hinit.
  pose proof (VoiceAssistant_init_well_formed _ _ _ _ Hcfg Hinit) as Hwf.
  split; [exact (proj2 Hwf) |].
  intros calls. exact (proj2 (do_calls_well_formed calls self Hwf)).
Qed.

Lemma active_mode_always_supported_witness :
  In (_active_mode (Examples.listener ["read mode"; "hello"] "navigation")) MODES /\
  In (_active_mode
        (do_calls (Examples.listener ["read mode"; "hello"] "navigation")
           [CallListenAndHandle tt; CallHandleTranscript "object mode";
            CallListenAndHandle tt; CallListenAndHandle tt])) MODES.
Proof.
  destruct (active_mode_always_supported _ Main.ScriptedTranscriber_listen
              (Main.ScriptedTranscriber_init ["read mode"; "hello"])
              (Some Examples.default_config) "navigation"
              (Examples.listener ["read mode"; "hello"] "navigation"))
    as [Hfirst Hafter].
  - intros cfg Hsome. injection Hsome as <-. exists None. reflexivity.
  - reflexivity.
  - split; [exact Hfirst | apply Hafter].
Defined.

(** The matcher ignores case and the amount of whitespace. *)
Example matching_is_insensitive_to_case_and_spacing :
  normalize "  SWITCH   TO Reading " = "switch to reading" /\
  _match_mode (Examples.listener [] "navigation") (normalize "  SWITCH   TO Reading ")
  = Some "reading".
Proof. split; reflexivity. Qed.

Example empty_transcript_matches_nothing :
  _match_mode (Examples.listener [] "navigation") (normalize "") = None.
Proof. reflexivity. Qed.

End AssistantFacts.

(* ===================================================================== *)
(** * The reading wrapper *)
(* ===================================================================== *)

Section ReadingFacts.
Import Py Navigation ReadingModule.

Lemma is_empty_str_true (s : string) : is_empty_str s = true <-> s = "".
Proof. destruct s; split; intros H; try reflexivity; discriminate H. Qed.

Lemma rstrip_empty_iff (s : string) :
  rstrip s = "" <-> Spec.whitespace_only s = true.
Proof.
  induction s as [| c s' IH]; cbn [rstrip Spec.whitespace_only].
  - split; reflexivity.
  - destruct (isspace c); cbn [andb].
    + destruct (is_empty_str (rstrip s')) eqn:He.
      * apply is_empty_str_true in He. split; [intros _; apply IH; exact He | reflexivity].
      * split; [discriminate |]. intros Hall. apply IH in Hall.
        apply is_empty_str_true in Hall. congruence.
    + split; discriminate.
Qed.

Lemma lstrip_whitespace_only (s : string) :
  Spec.whitespace_only (lstrip s) = Spec.whitespace_only s.
Proof.
  induction s as [| c s' IH]; [reflexivity |].
  cbn [lstrip]. destruct (isspace c) eqn:Hc.
  - rewrite IH. cbn [Spec.whitespace_only]. rewrite Hc. reflexivity.
  - reflexivity.
Qed.

(** [strip] returns the empty string exactly on whitespace-only text. *)
Lemma strip_empty_iff (s : string) :
  strip s = "" <-> Spec.whitespace_only s = true.
Proof.
  unfold strip. rewrite rstrip_empty_iff. rewrite lstrip_whitespace_only. reflexivity.
Qed.

Lemma str_truthy_false (s : string) : str_truthy s = false <-> s = "".
Proof.
  unfold str_truthy. rewrite negb_false_iff. apply is_empty_str_true.
Qed.

Lemma str_truthy_true (s : string) : str_truthy s = true <-> s <> "".
Proof.
  destruct s; cbn; split; intros H; try reflexivity; try discriminate; congruence.
Qed.

(** C9 (as stated) fails when no usable fallback is configured: with the
    fallback None, or the empty string, whitespace-only text makes
    process_frame speak nothing at all, so it does not emit the configured
    fallback message; with the default fallback it does. *)
Lemma blank_text_without_fallback_is_silent :
  Spec.whitespace_only "   " = true /\
  process_frame (Examples.reader "   " None) Examples.silence
  = (mkReadingResult "", Examples.silence) /\
  process_frame (Examples.reader "   " (Some "")) Examples.silence
  = (mkReadingResult "", Examples.silence) /\
  snd (process_frame (Examples.reader "   " None) Examples.silence) 0%nat = [] /\
  snd (process_frame (Examples.reader "   " (Some "")) Examples.silence) 0%nat
  <> [""] /\
  snd (process_frame (Examples.reader "   " default_fallback_message)
         Examples.silence) 0%nat = ["no text detected"].
Proof.
  split; [reflexivity |].
  split; [reflexivity |].
  split; [reflexivity |].
  split; [reflexivity |].
  split; [discriminate | reflexivity].
Qed.

(** C9 (as amended): for every OCR result whose text is empty or only
    whitespace, process_frame emits the configured fallback message when
    one is configured and non-empty, and emits nothing when the fallback is
    None or the empty string; for every OCR result with non-whitespace
    content it emits the trimmed text, which is non-empty.  Nothing else
    is emitted and the audio backends of other references are left
    alone. *)
Theorem reading_emits_text_or_fallback :
  forall (C E A : Type) (camera_get_frame : CameraInput C)
         (engine_extract_text : OcrEngine E) (audio_speak : AudioOutput A)
         (self : ReadingAssistant C E) (st : AudioStore A),
    let raw := extract_text (_ocr_engine self) (get_frame (_camera self)) in
    (Spec.whitespace_only raw = false ->
       strip raw <> "" /\
       process_frame self st
       = (mkReadingResult (strip raw), speak_at st (_audio self) (strip raw))) /\
    (Spec.whitespace_only raw = true ->
       forall message, _fallback_message self = Some message -> message <> "" ->
       process_frame self st
       = (mkReadingResult "", speak_at st (_audio self) message)) /\
    (Spec.whitespace_only raw = true ->
       _fallback_message self = None \/ _fallback_message self = Some "" ->
       process_frame self st = (mkReadingResult "", st)).
Proof.
  intros C E A camera_get_frame engine_extract_text audio_speak self st raw.
  unfold process_frame. fold raw. cbv zeta.
  split; [| split].
  - intros Hws.
    assert (Hne : strip raw <> "").
    { intros Hempty. apply strip_empty_iff in Hempty. congruence. }
    split; [exact Hne |].
    apply str_truthy_true in Hne. rewrite Hne. reflexivity.
  - intros Hws message Hfb Hmsg.
    apply strip_empty_iff in Hws. rewrite Hws. cbn [str_truthy is_empty_str negb].
    rewrite Hfb. cbn [opt_str_truthy]. apply str_truthy_true in Hmsg.
    rewrite Hmsg. reflexivity.
  - intros Hws Hfb.
    apply strip_empty_iff in Hws. rewrite Hws. cbn [str_truthy is_empty_str negb].
    destruct Hfb as [-> | ->]; reflexivity.
Qed.

Lemma reading_emits_text_or_fallback_witness :
  process_frame (Examples.reader "  Exit  left " default_fallback_message) Examples.silence
  = (mkReadingResult "Exit  left",
     speak_at Examples.silence 0%nat "Exit  left") /\
  process_frame (Examples.reader "   " default_fallback_message) Examples.silence
  = (mkReadingResult "", speak_at Examples.silence 0%nat "no text detected") /\
  process_frame (Examples.reader "   " None) Examples.silence
  = (mkReadingResult "", Examples.silence).
Proof.
  pose proof (reading_emits_text_or_fallback _ _ _ _ _ _
                (Examples.reader "  Exit  left " default_fallback_message)
                Examples.silence) as Htext.
  pose proof (reading_emits_text_or_fallback _ _ _ _ _ _
                (Examples.reader "   " default_fallback_message)
                Examples.silence) as Hblank.
  pose proof (reading_emits_text_or_fallback _ _ _ _ _ _
                (Examples.reader "   " None) Examples.silence) as Hnone.
  cbv zeta in Htext, Hblank, Hnone.
  destruct Htext as [Htext _]. destruct Hblank as [_ [Hblank _]].
  destruct Hnone as [_ [_ Hnone]].
  split; [| split].
  - apply Htext. reflexivity.
  - apply Hblank; [reflexivity | reflexivity | discriminate].
  - apply Hnone; [reflexivity | left; reflexivity].
Defined.

End ReadingFacts.

(* ===================================================================== *)
(** * The demo driver *)
(* ===================================================================== *)

Section DemoFacts.
Import Py.

(** C7 (as stated) fails on the count: the demo run on the three
    transcripts leaves four messages in the audio log, not three, because
    the two labels are two emissions. *)
Lemma demo_log_has_four_messages :
  Main.run_demo Main.demo_transcripts
  = inr ["forward"; "person"; "book"; "Welcome to the campus library"] /\
  (forall log, Main.run_demo Main.demo_transcripts = inr log -> List.length log = 4%nat) /\
  ~ (exists log, Main.run_demo Main.demo_transcripts = inr log /\ List.length log = 3%nat).
Proof.
  assert (Hrun : Main.run_demo Main.demo_transcripts
                 = inr ["forward"; "person"; "book"; "Welcome to the campus library"])
    by (vm_compute; reflexivity).
  split; [exact Hrun |]. rewrite Hrun. split.
  - intros log Heq. injection Heq as <-. reflexivity.
  - intros [log [Heq Hlen]]. injection Heq as <-. discriminate Hlen.
Qed.

(** C7 (as amended): the demo driver run on ["switch to navigation";
    "switch to object detection"; "switch to reading"] with the default
    fixtures returns an audio log of exactly four messages: "forward", then
    "person", then "book", then "Welcome to the campus library". *)
Theorem demo_log :
  Main.demo_transcripts
  = ["switch to navigation"; "switch to object detection"; "switch to reading"] /\
  Main.run_demo Main.demo_transcripts
  = inr ["forward"; "person"; "book"; "Welcome to the campus library"].
Proof. split; [reflexivity | vm_compute; reflexivity]. Qed.

End DemoFacts.

(* ===================================================================== *)
(** * More on rounding *)
(* ===================================================================== *)

Section RoundingFacts.
Import Py.

Lemma truediv_2_outcomes (n : Z) :
  truediv_2 n = inl (OverflowError "integer division result too large for a float") \/
  truediv_2 n = inr (inject_Z (round_to_mantissa n) / 2)%Q.
Proof.
  unfold truediv_2.
  destruct (2 ^ (DBL_MAX_EXP + 1) <=? Z.abs (round_to_mantissa n));
    [left | right]; reflexivity.
Qed.

Lemma bit_length_pos (n : Z) :
  0 < n -> 0 < bit_length n /\ 2 ^ (bit_length n - 1) <= n < 2 ^ bit_length n.
Proof.
  intros Hn. unfold bit_length.
  destruct (Z.eqb_spec n 0) as [-> | _]; [lia |].
  rewrite (Z.abs_eq n) by lia.
  pose proof (Z.log2_nonneg n) as Hlog.
  destruct (Z.log2_spec n Hn) as [Hlo Hhi].
  replace (Z.log2 n + 1 - 1) with (Z.log2 n) by lia.
  replace (Z.log2 n + 1) with (Z.succ (Z.log2 n)) by lia.
  lia.
Qed.

Lemma bit_length_mono (x y : Z) :
  0 < x <= y -> bit_length x <= bit_length y.
Proof.
  intros [Hx Hxy]. unfold bit_length.
  destruct (Z.eqb_spec x 0) as [-> | _]; [lia |].
  destruct (Z.eqb_spec y 0) as [-> | _]; [lia |].
  rewrite !Z.abs_eq by lia.
  pose proof (Z.log2_le_mono x y Hxy). lia.
Qed.

(** The rounding of a positive integer with more than 53 bits, spelled out:
    [q] is the 53-bit prefix and the result is [q] or [q + 1] prefixes. *)
Lemma round_to_mantissa_big (n : Z) :
  0 < n -> DBL_MANT_DIG < bit_length n ->
  let shift := bit_length n - DBL_MANT_DIG in
  let q := n / 2 ^ shift in
  let r := n mod 2 ^ shift in
  let half := 2 ^ (shift - 1) in
  round_to_mantissa n
  = (if r <? half then q
     else if half <? r then q + 1
     else if Z.even q then q else q + 1) * 2 ^ shift
  /\ 2 ^ (DBL_MANT_DIG - 1) <= q < 2 ^ DBL_MANT_DIG
  /\ n = q * 2 ^ shift + r /\ 0 <= r < 2 ^ shift.
Proof.
  intros Hn Hbig shift q r half.
  assert (Hshift : 0 < shift) by (unfold shift; lia).
  assert (Hpow : 0 < 2 ^ shift) by (apply Z.pow_pos_nonneg; lia).
  split; [| split; [| split]].
  - unfold round_to_mantissa.
    assert (E : (bit_length n <=? DBL_MANT_DIG) = false) by (apply Z.leb_gt; exact Hbig).
    rewrite E. rewrite (Z.abs_eq n) by lia. rewrite (Z.sgn_pos n) by lia.
    fold shift. fold q. fold r. fold half. lia.
  - destruct (bit_length_pos n Hn) as [_ [Hlo Hhi]].
    assert (E1 : 2 ^ (bit_length n - 1) = 2 ^ (DBL_MANT_DIG - 1) * 2 ^ shift).
    { rewrite <- Z.pow_add_r by (unfold DBL_MANT_DIG; lia).
      f_equal. unfold shift. lia. }
    assert (E2 : 2 ^ bit_length n = 2 ^ DBL_MANT_DIG * 2 ^ shift).
    { rewrite <- Z.pow_add_r by (unfold DBL_MANT_DIG; lia).
      f_equal. unfold shift. lia. }
    unfold q. split.
    + apply Z.div_le_lower_bound; [exact Hpow |]. lia.
    + apply Z.div_lt_upper_bound; [exact Hpow |]. lia.
  - unfold q, r. pose proof (Z.div_mod n (2 ^ shift)). lia.
  - unfold r. apply Z.mod_pos_bound. exact Hpow.
Qed.

(** A rounded positive integer stays between the powers of two that
    enclose the integer. *)
Lemma round_to_mantissa_bounds (n : Z) :
  0 < n ->
  2 ^ (bit_length n - 1) <= round_to_mantissa n <= 2 ^ bit_length n.
Proof.
  intros Hn. destruct (bit_length_pos n Hn) as [Hb [Hlo Hhi]].
  destruct (Z_le_gt_dec (bit_length n) DBL_MANT_DIG) as [Hsmall | Hbig].
  - unfold round_to_mantissa. apply Z.leb_le in Hsmall. rewrite Hsmall. lia.
  - destruct (round_to_mantissa_big n Hn ltac:(lia)) as [Hr [[Hq1 Hq2] [Hn' Hrr]]].
    cbv zeta in *.
    set (shift := bit_length n - DBL_MANT_DIG) in *.
    set (q := n / 2 ^ shift) in *.
    assert (Hpow : 0 < 2 ^ shift) by (apply Z.pow_pos_nonneg; unfold shift; lia).
    assert (E1 : 2 ^ (bit_length n - 1) = 2 ^ (DBL_MANT_DIG - 1) * 2 ^ shift).
    { rewrite <- Z.pow_add_r by (unfold shift, DBL_MANT_DIG in *; lia).
      f_equal. unfold shift. lia. }
    assert (E2 : 2 ^ bit_length n = 2 ^ DBL_MANT_DIG * 2 ^ shift).
    { rewrite <- Z.pow_add_r by (unfold shift, DBL_MANT_DIG in *; lia).
      f_equal. unfold shift. lia. }
    rewrite Hr, E1, E2.
    destruct (_ <? _); [| destruct (_ <? _); [| destruct (Z.even q)]]; nia.
Qed.

Lemma round_to_mantissa_opp (n : Z) :
  round_to_mantissa (- n) = - round_to_mantissa n.
Proof.
  unfold round_to_mantissa, bit_length.
  rewrite Z.abs_opp, Z.sgn_opp.
  replace (- n =? 0) with (n =? 0)
    by (destruct (Z.eqb_spec n 0), (Z.eqb_spec (- n) 0); lia).
  destruct (_ <=? DBL_MANT_DIG); lia.
Qed.

Lemma round_to_mantissa_0 : round_to_mantissa 0 = 0.
Proof. reflexivity. Qed.

Lemma round_to_mantissa_pos (n : Z) : 0 < n -> 0 < round_to_mantissa n.
Proof.
  intros Hn. pose proof (round_to_mantissa_bounds n Hn) as [Hlo _].
  destruct (bit_length_pos n Hn) as [Hb _].
  assert (0 < 2 ^ (bit_length n - 1)) by (apply Z.pow_pos_nonneg; lia).
  lia.
Qed.

Lemma round_to_mantissa_mono_pos (x y : Z) :
  0 < x <= y -> round_to_mantissa x <= round_to_mantissa y.
Proof.
  intros [Hx Hxy]. assert (Hy : 0 < y) by lia.
  pose proof (bit_length_mono x y (conj Hx Hxy)) as Hbits.
  destruct (Z.eq_dec (bit_length x) (bit_length y)) as [Heq | Hne].
  - destruct (Z_le_gt_dec (bit_length x) DBL_MANT_DIG) as [Hsmall | Hbig].
    + unfold round_to_mantissa. rewrite <- Heq.
      apply Z.leb_le in Hsmall. rewrite Hsmall. exact Hxy.
    + destruct (round_to_mantissa_big x Hx ltac:(lia)) as [Hrx [[Hq1 Hq2] [Hx' Hrr]]].
      destruct (round_to_mantissa_big y Hy ltac:(lia)) as [Hry [[Hp1 Hp2] [Hy' Hss]]].
      cbv zeta in *. rewrite <- Heq in *.
      set (shift := bit_length x - DBL_MANT_DIG) in *.
      assert (Hpow : 0 < 2 ^ shift) by (apply Z.pow_pos_nonneg; unfold shift; lia).
      assert (Hhalf : 2 ^ shift = 2 * 2 ^ (shift - 1)).
      { rewrite <- Z.pow_succ_r by (unfold shift; lia). f_equal. lia. }
      set (qx := x / 2 ^ shift) in *. set (rx := x mod 2 ^ shift) in *.
      set (qy := y / 2 ^ shift) in *. set (ry := y mod 2 ^ shift) in *.
      set (half := 2 ^ (shift - 1)) in *.
      rewrite Hrx, Hry.
      apply Z.mul_le_mono_nonneg_r; [lia |].
      assert (Hq : qx <= qy) by (apply Z.div_le_mono; lia).
      destruct (Z.eq_dec qx qy) as [Hsame | Hdiff].
      * rewrite Hsame in *. assert (rx <= ry) by nia.
        destruct (Z.ltb_spec rx half), (Z.ltb_spec half rx),
                 (Z.ltb_spec ry half), (Z.ltb_spec half ry),
                 (Z.even qy); lia.
      * destruct (Z.ltb_spec rx half), (Z.ltb_spec half rx),
                 (Z.ltb_spec ry half), (Z.ltb_spec half ry),
                 (Z.even qx), (Z.even qy); lia.
  - pose proof (round_to_mantissa_bounds x Hx) as [_ Hhi].
    pose proof (round_to_mantissa_bounds y Hy) as [Hlo _].
    assert (2 ^ bit_length x <= 2 ^ (bit_length y - 1))
      by (apply Z.pow_le_mono_r; lia).
    lia.
Qed.

(** Rounding is monotone on all integers. *)
Lemma round_to_mantissa_mono (x y : Z) :
  x <= y -> round_to_mantissa x <= round_to_mantissa y.
Proof.
  intros Hxy.
  destruct (Z.lt_trichotomy x 0) as [Hx | [-> | Hx]];
    destruct (Z.lt_trichotomy y 0) as [Hy | [-> | Hy]]; try lia.
  - pose proof (round_to_mantissa_mono_pos (- y) (- x) ltac:(lia)) as H.
    rewrite !round_to_mantissa_opp in H. lia.
  - pose proof (round_to_mantissa_pos (- x) ltac:(lia)) as H.
    rewrite round_to_mantissa_opp in H. rewrite round_to_mantissa_0. lia.
  - pose proof (round_to_mantissa_pos (- x) ltac:(lia)) as H.
    rewrite round_to_mantissa_opp in H.
    pose proof (round_to_mantissa_pos y Hy). lia.
  - rewrite round_to_mantissa_0. pose proof (round_to_mantissa_pos y Hy). lia.
  - apply round_to_mantissa_mono_pos. lia.
Qed.

(** Below [2 ^ 1024] in magnitude the division by [2] returns. *)
Lemma truediv_2_returns (n : Z) :
  Z.abs n < 2 ^ DBL_MAX_EXP ->
  truediv_2 n = inr (inject_Z (round_to_mantissa n) / 2)%Q.
Proof.
  intros Hn. unfold truediv_2.
  assert (Hlt : Z.abs (round_to_mantissa n) < 2 ^ (DBL_MAX_EXP + 1)).
  { assert (Hgen : forall m, 0 < m < 2 ^ DBL_MAX_EXP ->
                             round_to_mantissa m < 2 ^ (DBL_MAX_EXP + 1)).
    { intros m [Hm Hmax].
      pose proof (round_to_mantissa_bounds m Hm) as [_ Hhi].
      destruct (bit_length_pos m Hm) as [Hb [Hlo _]].
      assert (bit_length m - 1 < DBL_MAX_EXP).
      { apply (Z.pow_lt_mono_r_iff 2); [lia | unfold DBL_MAX_EXP; lia | lia]. }
      assert (2 ^ bit_length m <= 2 ^ DBL_MAX_EXP) by (apply Z.pow_le_mono_r; lia).
      assert (2 ^ DBL_MAX_EXP < 2 ^ (DBL_MAX_EXP + 1))
        by (apply Z.pow_lt_mono_r; unfold DBL_MAX_EXP; lia).
      lia. }
    destruct (Z.lt_trichotomy n 0) as [Hneg | [-> | Hpos]].
    - pose proof (Hgen (- n) ltac:(lia)) as H.
      pose proof (round_to_mantissa_pos (- n) ltac:(lia)) as H0.
      rewrite round_to_mantissa_opp in H, H0. lia.
    - rewrite round_to_mantissa_0. cbn. reflexivity.
    - pose proof (Hgen n ltac:(lia)). pose proof (round_to_mantissa_pos n Hpos). lia. }
  apply Z.leb_gt in Hlt. rewrite Hlt. reflexivity.
Qed.

(** From [2 ^ 1025] on it raises. *)
Lemma truediv_2_raises (n : Z) :
  2 ^ (DBL_MAX_EXP + 1) <= n ->
  truediv_2 n = inl (OverflowError "integer division result too large for a float").
Proof.
  intros Hn. unfold truediv_2.
  assert (Hpos : 0 < n).
  { assert (0 < 2 ^ (DBL_MAX_EXP + 1)) by (apply Z.pow_pos_nonneg; unfold DBL_MAX_EXP; lia).
    lia. }
  assert (Hge : 2 ^ (DBL_MAX_EXP + 1) <= Z.abs (round_to_mantissa n)).
  { pose proof (round_to_mantissa_mono _ _ Hn) as Hmono.
    assert (E : round_to_mantissa (2 ^ (DBL_MAX_EXP + 1)) = 2 ^ (DBL_MAX_EXP + 1))
      by (vm_compute; reflexivity).
    rewrite E in Hmono. lia. }
  apply Z.leb_le in Hge. rewrite Hge. reflexivity.
Qed.

End RoundingFacts.

(* ===================================================================== *)
(** * Further properties of the guidance heuristic *)
(* ===================================================================== *)

Section GuidanceMore.
Import Py Navigation.

Lemma bind_assoc {A B X : Type} (c : result A) (f : A -> result B) (g : B -> result X) :
  bind (bind c f) g = bind c (fun a => bind (f a) g).
Proof. destruct c; reflexivity. Qed.

Lemma for_each_ext {A S : Type} (f g : S -> A -> result S) :
  (forall s x, f s x = g s x) ->
  forall xs s, for_each f xs s = for_each g xs s.
Proof.
  intros Hfg. induction xs as [| x xs IH]; intros s; cbn [for_each]; [reflexivity |].
  rewrite Hfg. destruct (g s x) as [e | s']; cbn [bind]; [reflexivity | apply IH].
Qed.

(** A loop whose steps commute does not depend on the order of its list. *)
Lemma for_each_permutation {A S : Type} (body : S -> A -> result S) :
  (forall s x y,
     bind (body s x) (fun s' => body s' y) = bind (body s y) (fun s' => body s' x)) ->
  forall xs ys, Permutation xs ys ->
  forall s, for_each body xs s = for_each body ys s.
Proof.
  intros Hcomm xs ys Hperm.
  induction Hperm as [| x l l' _ IH | x y l | l l' l'' _ IH1 _ IH2]; intros s.
  - reflexivity.
  - cbn [for_each]. destruct (body s x) as [e | s']; cbn [bind]; [reflexivity | apply IH].
  - cbn [for_each].
    change (bind (body s y) (fun s1 => bind (body s1 x) (for_each body l))
            = bind (body s x) (fun s1 => bind (body s1 y) (for_each body l))).
    rewrite <- !bind_assoc. rewrite (Hcomm s y x). reflexivity.
  - rewrite IH1. apply IH2.
Qed.

Lemma choose_direction_counts_steps (fw : Z) (obstacles : list Obstacle) :
  choose_direction_counts obstacles fw
  = for_each (Views.count_step fw) obstacles (0, 0).
Proof.
  unfold choose_direction_counts. apply for_each_ext. intros [l r] o.
  unfold Views.count_step, Views.left_of_midpoint.
  destruct (truediv_2 (bbox_0 (bbox o) + bbox_2 (bbox o))) as [e | c];
    cbn [bind]; [reflexivity |].
  destruct (truediv_2 fw) as [e | h]; cbn [bind ret]; [reflexivity |].
  destruct (float_lt c h); reflexivity.
Qed.

Lemma compute_guidance_counts_steps {C D : Type}
  (self : NavigationAssistant C D) (obstacles : list Obstacle) :
  _compute_guidance_counts self obstacles
  = for_each (Views.count_step (_frame_width self)) obstacles (0, 0).
Proof. exact (choose_direction_counts_steps (_frame_width self) obstacles). Qed.

(** The test raises nothing but the overflow of a division. *)
Lemma left_of_midpoint_raises (fw : Z) (o : Obstacle) (e : exn) :
  Views.left_of_midpoint fw o = inl e ->
  e = OverflowError "integer division result too large for a float".
Proof.
  unfold Views.left_of_midpoint.
  destruct (truediv_2_outcomes (bbox_0 (bbox o) + bbox_2 (bbox o))) as [-> | ->];
    cbn [bind]; [intros H; injection H as <-; reflexivity |].
  destruct (truediv_2_outcomes fw) as [-> | ->]; cbn [bind ret];
    [intros H; injection H as <-; reflexivity | discriminate].
Qed.

(** When the test says left-side, the center is strictly left of the
    midpoint in exact arithmetic too: rounding is monotone. *)
Lemma left_of_midpoint_sound (fw : Z) (o : Obstacle) :
  Views.left_of_midpoint fw o = inr true ->
  bbox_0 (bbox o) + bbox_2 (bbox o) < fw.
Proof.
  unfold Views.left_of_midpoint.
  destruct (truediv_2_outcomes (bbox_0 (bbox o) + bbox_2 (bbox o))) as [-> | ->];
    cbn [bind]; [discriminate |].
  destruct (truediv_2_outcomes fw) as [-> | ->]; cbn [bind ret]; [discriminate |].
  rewrite float_lt_halves. intros H. injection H as H. apply Z.ltb_lt in H.
  destruct (Z_lt_le_dec (bbox_0 (bbox o) + bbox_2 (bbox o)) fw) as [Hlt | Hge];
    [exact Hlt |].
  pose proof (round_to_mantissa_mono _ _ Hge). lia.
Qed.

Lemma count_step_commutes (fw : Z) (s : Z * Z) (x y : Obstacle) :
  bind (Views.count_step fw s x) (fun s' => Views.count_step fw s' y)
  = bind (Views.count_step fw s y) (fun s' => Views.count_step fw s' x).
Proof.
  destruct s as [l r]. unfold Views.count_step.
  destruct (Views.left_of_midpoint fw x) as [ex | bx] eqn:Hx;
    destruct (Views.left_of_midpoint fw y) as [ey | by_] eqn:Hy.
  - apply left_of_midpoint_raises in Hx, Hy. subst. reflexivity.
  - destruct by_; cbn [bind ret]; reflexivity.
  - destruct bx; cbn [bind ret]; reflexivity.
  - destruct bx, by_; cbn [bind ret]; f_equal; f_equal; lia.
Qed.

(** What the counters hold when the loop ends: every obstacle was counted
    once, and only obstacles really left of the midpoint were counted
    left. *)
Lemma counting_loop_bounds (fw : Z) (obstacles : list Obstacle) :
  forall l r l' r' : Z,
    for_each (Views.count_step fw) obstacles (l, r) = inr (l', r') ->
    l' + r' = l + r + Z.of_nat (List.length obstacles) /\
    l <= l' /\ r <= r' /\
    l' - l <= Z.of_nat (Spec.left_side_count fw obstacles) /\
    Z.of_nat (Spec.right_side_count fw obstacles) <= r' - r.
Proof.
  unfold Spec.left_side_count, Spec.right_side_count.
  induction obstacles as [| o rest IH]; intros l r l' r'.
  - cbn. intros H. injection H as <- <-. lia.
  - cbn [for_each filter List.length]. unfold Views.count_step at 1.
    rewrite is_left_side_ltb.
    destruct (Views.left_of_midpoint fw o) as [e | [|]] eqn:Htest;
      cbn [bind ret]; [discriminate | |].
    + apply left_of_midpoint_sound in Htest. apply Z.ltb_lt in Htest.
      rewrite Htest. cbn [negb List.length]. intros Hrest.
      specialize (IH _ _ _ _ Hrest). lia.
    + intros Hrest. specialize (IH _ _ _ _ Hrest).
      destruct (_ <? fw); cbn [negb List.length]; lia.
Qed.

(** The last three lines of either function return a cue. *)
Lemma decision_is_a_cue (l r : Z) (d : string) :
  (if r <? l then ret "right" else if l <? r then ret "left" else ret "forward")
  = inr d ->
  In d audio_guidance.
Proof.
  unfold audio_guidance.
  destruct (r <? l); [| destruct (l <? r)]; intros H; injection H as <-;
    cbn; tauto.
Qed.

Lemma choose_direction_unfold (fw : Z) (obstacles : list Obstacle) :
  0 < fw ->
  choose_direction_from_obstacles obstacles fw
  = if is_nil obstacles then inr "forward"
    else bind (for_each (Views.count_step fw) obstacles (0, 0))
           (fun '(l, r) => if r <? l then ret "right"
                           else if l <? r then ret "left" else ret "forward").
Proof.
  intros Hpos. unfold choose_direction_from_obstacles.
  assert (E : (fw <=? 0) = false) by (apply Z.leb_gt; exact Hpos).
  rewrite E. cbv zeta. rewrite choose_direction_counts_steps. reflexivity.
Qed.

Lemma compute_guidance_unfold {C D : Type}
  (self : NavigationAssistant C D) (obstacles : list Obstacle) :
  _compute_guidance self obstacles
  = if is_nil obstacles then inr "forward"
    else bind (for_each (Views.count_step (_frame_width self)) obstacles (0, 0))
           (fun '(l, r) => if r <? l then ret "right"
                           else if l <? r then ret "left" else ret "forward").
Proof.
  unfold _compute_guidance. rewrite compute_guidance_counts_steps. reflexivity.
Qed.

Lemma choose_direction_non_positive (fw : Z) (obstacles : list Obstacle) :
  fw <= 0 ->
  choose_direction_from_obstacles obstacles fw
  = inl (ValueError "frame_width must be positive").
Proof.
  intros Hle. unfold choose_direction_from_obstacles.
  assert (E : (fw <=? 0) = true) by (apply Z.leb_le; exact Hle).
  rewrite E. reflexivity.
Qed.

(** X1: whatever the obstacles and the width, a direction returned by
    choose_direction_from_obstacles or by _compute_guidance is one of the
    three cues of audio_guidance: "left", "right" or "forward". *)
Theorem direction_is_a_guidance_cue :
  forall (C D : Type) (self : NavigationAssistant C D)
         (obstacles : list Obstacle) (frame_width : Z) (d : string),
    (choose_direction_from_obstacles obstacles frame_width = inr d ->
     In d audio_guidance) /\
    (_compute_guidance self obstacles = inr d -> In d audio_guidance).
Proof.
  intros C D self obstacles fw d.
  assert (Hshape : forall w,
            (if is_nil obstacles then inr "forward"
             else bind (for_each (Views.count_step w) obstacles (0, 0))
                    (fun '(l, r) => if r <? l then ret "right"
                                    else if l <? r then ret "left" else ret "forward"))
            = inr d -> In d audio_guidance).
  { intros w. destruct (is_nil obstacles).
    - intros H. injection H as <-. cbn. tauto.
    - destruct (for_each (Views.count_step w) obstacles (0, 0)) as [e | [l r]];
        cbn [bind]; [discriminate | apply decision_is_a_cue]. }
  split.
  - destruct (Z_le_gt_dec fw 0) as [Hle | Hgt].
    + rewrite (choose_direction_non_positive fw obstacles Hle). discriminate.
    + rewrite (choose_direction_unfold fw obstacles ltac:(lia)). apply Hshape.
  - rewrite compute_guidance_unfold. apply Hshape.
Qed.

Lemma direction_is_a_guidance_cue_witness :
  In "right" audio_guidance /\ In "forward" audio_guidance.
Proof.
  split.
  - apply (proj1 (direction_is_a_guidance_cue unit unit (Examples.assistant 320)
                    [Examples.spanning 20 80] 320 "right")).
    reflexivity.
  - apply (proj2 (direction_is_a_guidance_cue unit unit (Examples.assistant 320)
                    [Examples.spanning 20 80; Examples.spanning 200 260] 320 "forward")).
    reflexivity.
Defined.

Lemma is_nil_permutation {X : Type} (xs ys : list X) :
  Permutation xs ys -> is_nil xs = is_nil ys.
Proof.
  intros Hperm. apply Permutation_length in Hperm.
  destruct xs, ys; try reflexivity; discriminate Hperm.
Qed.

(** X2: the direction does not depend on the order in which the obstacles
    are listed: on a permutation of the sequence
    choose_direction_from_obstacles and _compute_guidance return the same
    direction, or raise the same exception. *)
Theorem guidance_ignores_obstacle_order :
  forall (C D : Type) (self : NavigationAssistant C D)
         (obstacles obstacles' : list Obstacle) (frame_width : Z),
    Permutation obstacles obstacles' ->
    choose_direction_from_obstacles obstacles frame_width
    = choose_direction_from_obstacles obstacles' frame_width /\
    _compute_guidance self obstacles = _compute_guidance self obstacles'.
Proof.
  intros C D self xs ys fw Hperm.
  assert (Hloop : forall w, for_each (Views.count_step w) xs (0, 0)
                            = for_each (Views.count_step w) ys (0, 0)).
  { intros w. apply for_each_permutation; [| exact Hperm].
    intros s x y. apply count_step_commutes. }
  split.
  - destruct (Z_le_gt_dec fw 0) as [Hle | Hgt].
    + rewrite !(choose_direction_non_positive fw) by exact Hle. reflexivity.
    + rewrite !(choose_direction_unfold fw) by lia.
      rewrite (is_nil_permutation xs ys Hperm), Hloop. reflexivity.
  - rewrite !compute_guidance_unfold.
    rewrite (is_nil_permutation xs ys Hperm), Hloop. reflexivity.
Qed.

Lemma guidance_ignores_obstacle_order_witness :
  choose_direction_from_obstacles
    [Examples.spanning 20 80; Examples.spanning 200 260; Examples.spanning 0 40] 320
  = choose_direction_from_obstacles
      [Examples.spanning 200 260; Examples.spanning 20 80; Examples.spanning 0 40] 320.
Proof.
  destruct (guidance_ignores_obstacle_order unit unit (Examples.assistant 320)
              [Examples.spanning 20 80; Examples.spanning 200 260;
               Examples.spanning 0 40]
              [Examples.spanning 200 260; Examples.spanning 20 80;
               Examples.spanning 0 40] 320) as [Hsame _].
  - apply perm_swap.
  - exact Hsame.
Defined.

(** X3: an odd number of obstacles can never tie, so with an odd number of
    obstacles neither function answers "forward": the answer is "left" or
    "right", or an exception. *)
Theorem odd_count_is_never_forward :
  forall (C D : Type) (self : NavigationAssistant C D)
         (obstacles : list Obstacle) (frame_width : Z),
    Nat.odd (List.length obstacles) = true ->
    choose_direction_from_obstacles obstacles frame_width <> inr "forward" /\
    _compute_guidance self obstacles <> inr "forward".
Proof.
  intros C D self obstacles fw Hodd.
  assert (Hshape : forall w,
            (if is_nil obstacles then inr "forward"
             else bind (for_each (Views.count_step w) obstacles (0, 0))
                    (fun '(l, r) => if r <? l then ret "right"
                                    else if l <? r then ret "left" else ret "forward"))
            <> inr "forward").
  { intros w. destruct obstacles as [| o rest]; [discriminate Hodd |]. cbn [is_nil].
    destruct (for_each (Views.count_step w) (o :: rest) (0, 0)) as [e | [l r]] eqn:Hloop;
      cbn [bind]; [discriminate |].
    destruct (counting_loop_bounds w _ _ _ _ _ Hloop) as [Hsum _].
    destruct (Z.ltb_spec r l); [discriminate |].
    destruct (Z.ltb_spec l r); [discriminate |].
    assert (l = r) by lia. subst r.
    apply Nat.odd_spec in Hodd. destruct Hodd as [k Hk]. lia. }
  split.
  - destruct (Z_le_gt_dec fw 0) as [Hle | Hgt].
    + rewrite (choose_direction_non_positive fw obstacles Hle). discriminate.
    + rewrite (choose_direction_unfold fw obstacles ltac:(lia)). apply Hshape.
  - rewrite compute_guidance_unfold. apply Hshape.
Qed.

Lemma odd_count_is_never_forward_witness :
  choose_direction_from_obstacles
    [Examples.spanning 20 80; Examples.spanning 200 260; Examples.spanning 100 220] 320
  <> inr "forward".
Proof.
  destruct (odd_count_is_never_forward unit unit (Examples.assistant 320)
              [Examples.spanning 20 80; Examples.spanning 200 260;
               Examples.spanning 100 220] 320) as [Hodd _].
  - reflexivity.
  - exact Hodd.
Defined.

(** X4: rounding only ever moves an obstacle from the left side to the
    right side.  Whenever the counting loop ends, its left count is at most
    the number of obstacles whose center (left + right) / 2 is really
    below frame_width / 2, its right count is at least the number of the
    others, and the two add up to the number of obstacles; so an answer
    "right" is always the answer of the real-valued reference. *)
Theorem right_is_always_justified :
  forall (obstacles : list Obstacle) (frame_width : Z),
    (forall l r,
       choose_direction_counts obstacles frame_width = inr (l, r) ->
       0 <= l <= Z.of_nat (Spec.left_side_count frame_width obstacles) /\
       Z.of_nat (Spec.right_side_count frame_width obstacles) <= r /\
       l + r = Z.of_nat (List.length obstacles)) /\
    (choose_direction_from_obstacles obstacles frame_width = inr "right" ->
     (Spec.right_side_count frame_width obstacles
      < Spec.left_side_count frame_width obstacles)%nat).
Proof.
  intros obstacles fw. split.
  - intros l r Hloop. rewrite choose_direction_counts_steps in Hloop.
    pose proof (counting_loop_bounds fw _ _ _ _ _ Hloop). lia.
  - destruct (Z_le_gt_dec fw 0) as [Hle | Hgt].
    + rewrite (choose_direction_non_positive fw obstacles Hle). discriminate.
    + rewrite (choose_direction_unfold fw obstacles ltac:(lia)).
      destruct (is_nil obstacles); [discriminate |].
      destruct (for_each (Views.count_step fw) obstacles (0, 0)) as [e | [l r]] eqn:Hloop;
        cbn [bind]; [discriminate |].
      pose proof (counting_loop_bounds fw _ _ _ _ _ Hloop) as Hb.
      destruct (Z.ltb_spec r l); [intros _; lia |].
      destruct (l <? r); discriminate.
Qed.

Lemma right_is_always_justified_witness :
  (0 <= 1 <= Z.of_nat (Spec.left_side_count 320 [Examples.spanning 20 80]) /\
   Z.of_nat (Spec.right_side_count 320 [Examples.spanning 20 80]) <= 0 /\
   1 + 0 = Z.of_nat (List.length [Examples.spanning 20 80])) /\
  (Spec.right_side_count 320 [Examples.spanning 20 80]
   < Spec.left_side_count 320 [Examples.spanning 20 80])%nat.
Proof.
  split.
  - apply (proj1 (right_is_always_justified [Examples.spanning 20 80] 320) 1 0).
    reflexivity.
  - apply (proj2 (right_is_always_justified [Examples.spanning 20 80] 320)).
    reflexivity.
Defined.

(** X5: as long as frame_width and every left + right stay below 2^1024 in
    magnitude, no division overflows: for a positive frame_width both
    functions return a direction, and it is one of the three cues. *)
Theorem guidance_returns_within_float_range :
  forall (C D : Type) (camera : C) (detector : D) (audio : AudioRef)
         (obstacles : list Obstacle) (frame_width : Z),
    0 < frame_width < 2 ^ 1024 ->
    Forall (fun o => Z.abs (bbox_0 (bbox o) + bbox_2 (bbox o)) < 2 ^ 1024) obstacles ->
    exists d, In d audio_guidance /\
      choose_direction_from_obstacles obstacles frame_width = inr d /\
      _compute_guidance (mkNavigationAssistant camera detector audio frame_width)
        obstacles = inr d.
Proof.
  intros C D camera detector audio obstacles fw [Hpos Hmax] Hall.
  assert (Hfw : truediv_2 fw = inr (inject_Z (round_to_mantissa fw) / 2)%Q)
    by (apply truediv_2_returns; unfold DBL_MAX_EXP; lia).
  assert (Hloop : forall s, exists s', for_each (Views.count_step fw) obstacles s = inr s').
  { induction Hall as [| o rest Ho _ IH]; intros s.
    - exists s. reflexivity.
    - cbn [for_each]. destruct s as [l r].
      unfold Views.count_step at 1, Views.left_of_midpoint.
      rewrite (truediv_2_returns _ Ho), Hfw. cbn [bind ret]. apply IH. }
  destruct (Hloop (0, 0)) as [[l r] Hcounts].
  assert (Hcg : _compute_guidance (mkNavigationAssistant camera detector audio fw) obstacles
                = choose_direction_from_obstacles obstacles fw)
    by (apply (compute_guidance_as_choose (mkNavigationAssistant camera detector audio fw));
        exact Hpos).
  rewrite Hcg. rewrite (choose_direction_unfold fw obstacles Hpos).
  destruct (is_nil obstacles).
  - exists "forward". split; [cbn; tauto | split; reflexivity].
  - rewrite Hcounts. cbn [bind].
    destruct (r <? l); [| destruct (l <? r)]; eexists; (split; [| split; reflexivity]);
      cbn; tauto.
Qed.

Lemma guidance_returns_within_float_range_witness :
  exists d, In d audio_guidance /\
    choose_direction_from_obstacles [Examples.spanning 0 (2 ^ 60)] (2 ^ 70) = inr d /\
    _compute_guidance (Examples.assistant (2 ^ 70)) [Examples.spanning 0 (2 ^ 60)] = inr d.
Proof.
  apply (guidance_returns_within_float_range unit unit tt tt 0%nat
           [Examples.spanning 0 (2 ^ 60)] (2 ^ 70)).
  - split; [reflexivity | vm_compute; reflexivity].
  - constructor; [vm_compute; reflexivity | constructor].
Defined.

(** X6: a frame_width of 2^1025 or more cannot be halved in floating point.
    The heuristic only notices when there is an obstacle: on the empty
    sequence it still answers "forward", on every non-empty sequence it
    raises OverflowError. *)
Theorem oversized_width_raises_unless_empty :
  forall (C D : Type) (self : NavigationAssistant C D) (frame_width : Z),
    2 ^ 1025 <= frame_width ->
    _frame_width self = frame_width ->
    choose_direction_from_obstacles [] frame_width = inr "forward" /\
    _compute_guidance self [] = inr "forward" /\
    forall (o : Obstacle) (rest : list Obstacle),
      choose_direction_from_obstacles (o :: rest) frame_width
      = inl (OverflowError "integer division result too large for a float") /\
      _compute_guidance self (o :: rest)
      = inl (OverflowError "integer division result too large for a float").
Proof.
  intros C D self fw Hbig Hself.
  assert (Hpos : 0 < fw).
  { assert (0 < 2 ^ 1025) by (apply Z.pow_pos_nonneg; lia). lia. }
  assert (Hfw : truediv_2 fw
                = inl (OverflowError "integer division result too large for a float"))
    by (apply truediv_2_raises; exact Hbig).
  assert (Hcg : forall obs, _compute_guidance self obs
                            = choose_direction_from_obstacles obs fw).
  { intros obs. rewrite <- Hself. apply compute_guidance_as_choose. lia. }
  rewrite !Hcg. rewrite (choose_direction_unfold fw [] Hpos).
  split; [reflexivity |]. split; [reflexivity |].
  intros o rest. rewrite Hcg. rewrite (choose_direction_unfold fw (o :: rest) Hpos).
  cbn [is_nil for_each]. unfold Views.count_step, Views.left_of_midpoint.
  rewrite Hfw.
  destruct (truediv_2_outcomes (bbox_0 (bbox o) + bbox_2 (bbox o))) as [-> | ->];
    split; reflexivity.
Qed.

Lemma oversized_width_raises_unless_empty_witness :
  choose_direction_from_obstacles [] (2 ^ 1025) = inr "forward" /\
  choose_direction_from_obstacles [Examples.spanning 20 80] (2 ^ 1025)
  = inl (OverflowError "integer division result too large for a float").
Proof.
  destruct (oversized_width_raises_unless_empty unit unit
              (Examples.assistant (2 ^ 1025)) (2 ^ 1025))
    as [Hempty [_ Hany]].
  - vm_compute. discriminate.
  - reflexivity.
  - split; [exact Hempty | apply Hany].
Defined.

End GuidanceMore.

(* ===================================================================== *)
(** * The three wrappers and the audio store *)
(* ===================================================================== *)

Section WrapperFacts.
Import Py Navigation.

Lemma speak_at_same {A : Type} `{AudioOutput A}
  (st : AudioStore A) (r : AudioRef) (message : string) :
  speak_at st r message r = speak (st r) message.
Proof. unfold speak_at. rewrite Nat.eqb_refl. reflexivity. Qed.

Lemma speak_at_other {A : Type} `{AudioOutput A}
  (st : AudioStore A) (r r' : AudioRef) (message : string) :
  r' <> r -> speak_at st r message r' = st r'.
Proof.
  intros Hne. unfold speak_at.
  destruct (Nat.eqb_spec r' r) as [Heq | _]; [contradiction | reflexivity].
Qed.

Lemma compute_guidance_returns_cue {C D : Type}
  (self : NavigationAssistant C D) (obstacles : list Obstacle) (d : string) :
  _compute_guidance self obstacles = inr d -> In d audio_guidance.
Proof.
  rewrite compute_guidance_unfold. destruct (is_nil obstacles).
  - intros H. injection H as <-. cbn. tauto.
  - destruct (for_each _ obstacles (0, 0)) as [e | [l r]]; cbn [bind];
      [discriminate | apply decision_is_a_cue].
Qed.

(** X7: one frame of the navigation assistant.  When it returns, the
    result carries the obstacles the detector reported and the direction
    computed from them, that direction is one of the three cues, it is
    spoken exactly once on the assistant's own audio backend, and every
    other backend is left as it was.  When the guidance raises, the frame
    raises the same exception. *)
Theorem navigation_frame_speaks_its_direction :
  forall (C D A : Type) (camera_get_frame : CameraInput C)
         (detector_detect : ObstacleDetector D) (audio_speak : AudioOutput A)
         (self : NavigationAssistant C D) (st : AudioStore A),
    (forall res st',
       process_frame self st = inr (res, st') ->
       obstacles res = detect (_detector self) (get_frame (_camera self)) /\
       _compute_guidance self (obstacles res) = inr (direction res) /\
       In (direction res) audio_guidance /\
       st' (_audio self) = speak (st (_audio self)) (direction res) /\
       forall r, r <> _audio self -> st' r = st r) /\
    (forall e,
       _compute_guidance self (detect (_detector self) (get_frame (_camera self)))
       = inl e ->
       process_frame self st = inl e).
Proof.
  intros C D A camera_get_frame detector_detect audio_speak self st.
  unfold process_frame. cbv zeta.
  set (found := detect (_detector self) (get_frame (_camera self))).
  split.
  - intros res st'.
    destruct (_compute_guidance self found) as [e | d] eqn:Hd; cbn [bind ret];
      [discriminate |].
    intros H. injection H as <- <-. cbn [obstacles direction].
    split; [reflexivity |]. split; [exact Hd |].
    split; [exact (compute_guidance_returns_cue self found d Hd) |].
    split; [apply speak_at_same |].
    intros r Hr. apply speak_at_other. exact Hr.
  - intros e He. rewrite He. reflexivity.
Qed.

Lemma navigation_frame_witness :
  In "right" audio_guidance /\
  speak_at Examples.silence 0%nat "right" 0%nat = ["right"] /\
  speak_at Examples.silence 0%nat "right" 1%nat = [] /\
  process_frame
    (mkNavigationAssistant Main.mkDummyCamera
       (Main.mkDummyObstacleDetector [Examples.spanning 20 80]) 0%nat (2 ^ 1025))
    Examples.silence
  = inl (OverflowError "integer division result too large for a float").
Proof.
  destruct (navigation_frame_speaks_its_direction _ _ _ _ _ _
              Examples.left_blocked Examples.silence) as [Hret _].
  destruct (navigation_frame_speaks_its_direction _ _ _ _ _ _
              (mkNavigationAssistant Main.mkDummyCamera
                 (Main.mkDummyObstacleDetector [Examples.spanning 20 80]) 0%nat (2 ^ 1025))
              Examples.silence) as [_ Hraise].
  destruct (Hret (mkGuidanceResult "right" [Examples.spanning 20 80])
                 (speak_at Examples.silence 0%nat "right"))
    as [_ [_ [Hcue [Hown Hother]]]].
  - reflexivity.
  - split; [exact Hcue |]. split; [exact Hown |].
    split; [exact (Hother 1%nat ltac:(discriminate)) |].
    apply Hraise. vm_compute. reflexivity.
Defined.

Lemma speak_labels_at {C D A : Type} `{AudioOutput A}
  (self : ObjectDetection.ObjectDetectionAssistant C D)
  (objects : list ObjectDetection.DetectedObject) :
  forall st : AudioStore A,
    (fold_left (fun st detected =>
                  speak_at st (ObjectDetection._audio self)
                    (ObjectDetection.label detected)) objects st)
      (ObjectDetection._audio self)
    = fold_left speak (map ObjectDetection.label objects)
        (st (ObjectDetection._audio self)) /\
    forall r, r <> ObjectDetection._audio self ->
      (fold_left (fun st detected =>
                    speak_at st (ObjectDetection._audio self)
                      (ObjectDetection.label detected)) objects st) r
      = st r.
Proof.
  induction objects as [| o rest IH]; intros st; cbn [fold_left map].
  - split; [reflexivity | intros r _; reflexivity].
  - destruct (IH (speak_at st (ObjectDetection._audio self) (ObjectDetection.label o)))
      as [Hown Hother].
    split.
    + rewrite Hown, speak_at_same. reflexivity.
    + intros r Hr. rewrite (Hother r Hr). apply speak_at_other. exact Hr.
Qed.

(** X8: one frame of the object-detection assistant.  The result carries
    the objects the detector reported; the assistant's own audio backend
    is told, in order, the label of every object -- or the one message
    "no objects detected" when there is none -- and nothing else; every
    other backend is left as it was. *)
Theorem detection_frame_speaks_labels_in_order :
  forall (C D A : Type) (camera_get_frame : CameraInput C)
         (detector_detect : ObjectDetection.ObjectDetector D)
         (audio_speak : AudioOutput A)
         (self : ObjectDetection.ObjectDetectionAssistant C D) (st : AudioStore A),
    let found := ObjectDetection.detect (ObjectDetection._detector self)
                   (get_frame (ObjectDetection._camera self)) in
    fst (ObjectDetection.process_frame self st) = ObjectDetection.mkDetectionResult found /\
    snd (ObjectDetection.process_frame self st) (ObjectDetection._audio self)
    = fold_left speak (Views.announcements found) (st (ObjectDetection._audio self)) /\
    forall r, r <> ObjectDetection._audio self ->
      snd (ObjectDetection.process_frame self st) r = st r.
Proof.
  intros C D A camera_get_frame detector_detect audio_speak self st found.
  unfold ObjectDetection.process_frame. cbv zeta. fold found. cbn [fst snd].
  split; [reflexivity |].
  unfold ObjectDetection._announce, Views.announcements.
  destruct found as [| o rest] eqn:Hfound; cbn [is_nil].
  - split; [apply speak_at_same | intros r Hr; apply speak_at_other; exact Hr].
  - apply speak_labels_at.
Qed.

(** On a backend that keeps what it is told, the log grows at its end. *)
Lemma recorder_keeps_order (messages spoken : list string) :
  fold_left speak messages spoken = (spoken ++ messages)%list.
Proof.
  revert spoken. induction messages as [| m rest IH]; intros spoken; cbn [fold_left].
  - rewrite app_nil_r. reflexivity.
  - rewrite IH. unfold speak, Examples.recorder_speak. rewrite <- app_assoc. reflexivity.
Qed.

Example detection_frame_on_a_recorder :
  snd (ObjectDetection.process_frame
         (Main.build_object_detection_assistant Main.mkDummyCamera 0%nat)
         Examples.silence) 0%nat = ["person"; "book"] /\
  snd (ObjectDetection.process_frame
         (ObjectDetection.mkObjectDetectionAssistant Main.mkDummyCamera
            (ObjectDetection.DummyObjectDetector_init None) 0%nat)
         Examples.silence) 0%nat = ["no objects detected"].
Proof. split; reflexivity. Qed.

Lemma lstrip_no_leading_space (s : string) :
  Views.starts_with_space (lstrip s) = false.
Proof.
  induction s as [| c s' IH]; [reflexivity |].
  cbn [lstrip]. destruct (isspace c) eqn:Hc; [exact IH |].
  cbn [Views.starts_with_space]. exact Hc.
Qed.

Lemma rstrip_no_trailing_space (s : string) :
  Views.ends_with_space (rstrip s) = false.
Proof.
  induction s as [| c s' IH]; [reflexivity |].
  cbn [rstrip]. destruct (rstrip s') as [| c' r] eqn:Hr.
  - cbn [is_empty_str]. rewrite andb_true_r.
    destruct (isspace c) eqn:Hc; [reflexivity |].
    cbn [Views.ends_with_space]. exact Hc.
  - cbn [is_empty_str]. rewrite andb_false_r.
    cbn [Views.ends_with_space]. cbn [Views.ends_with_space] in IH. exact IH.
Qed.

Lemma rstrip_keeps_leading (s : string) :
  Views.starts_with_space s = false -> Views.starts_with_space (rstrip s) = false.
Proof.
  destruct s as [| c s']; [reflexivity |].
  cbn [Views.starts_with_space rstrip]. intros Hc. rewrite Hc. exact Hc.
Qed.

Lemma lstrip_fixed (s : string) :
  Views.starts_with_space s = false -> lstrip s = s.
Proof.
  destruct s as [| c s']; [reflexivity |].
  cbn [Views.starts_with_space lstrip]. intros ->. reflexivity.
Qed.

Lemma rstrip_cons (c : ascii) (s : string) :
  rstrip (String c s)
  = if isspace c && is_empty_str (rstrip s) then EmptyString else String c (rstrip s).
Proof. reflexivity. Qed.

Lemma rstrip_fixed (s : string) :
  Views.ends_with_space s = false -> rstrip s = s.
Proof.
  induction s as [| c s' IH]; [reflexivity |].
  destruct s' as [| c' s''].
  - cbn. intros ->. reflexivity.
  - intros Hend. rewrite rstrip_cons.
    assert (Hrest : rstrip (String c' s'') = String c' s'') by (apply IH; exact Hend).
    rewrite Hrest. cbn [is_empty_str]. rewrite andb_false_r. reflexivity.
Qed.

(** X9: the text a reading frame returns is trimmed for good: it neither
    begins nor ends with whitespace, trimming it again changes nothing, and
    it is empty exactly when the OCR text was empty or all whitespace.  The
    frame speaks to no audio backend but its own. *)
Theorem reading_frame_returns_trimmed_text :
  forall (C E A : Type) (camera_get_frame : CameraInput C)
         (engine_extract_text : ReadingModule.OcrEngine E)
         (audio_speak : AudioOutput A)
         (self : ReadingModule.ReadingAssistant C E) (st : AudioStore A),
    let raw := ReadingModule.extract_text (ReadingModule._ocr_engine self)
                 (get_frame (ReadingModule._camera self)) in
    let read := ReadingModule.text (fst (ReadingModule.process_frame self st)) in
    read = strip raw /\
    Views.starts_with_space read = false /\
    Views.ends_with_space read = false /\
    strip read = read /\
    (read = "" <-> Spec.whitespace_only raw = true) /\
    forall r, r <> ReadingModule._audio self ->
      snd (ReadingModule.process_frame self st) r = st r.
Proof.
  intros C E A camera_get_frame engine_extract_text audio_speak self st raw read.
  assert (Hread : read = strip raw) by reflexivity.
  assert (Hlead : Views.starts_with_space (strip raw) = false)
    by (apply rstrip_keeps_leading, lstrip_no_leading_space).
  assert (Htrail : Views.ends_with_space (strip raw) = false)
    by apply rstrip_no_trailing_space.
  rewrite Hread.
  split; [reflexivity |]. split; [exact Hlead |]. split; [exact Htrail |].
  split; [| split].
  - unfold strip at 1. rewrite (lstrip_fixed _ Hlead). apply rstrip_fixed. exact Htrail.
  - apply strip_empty_iff.
  - intros r Hr. unfold ReadingModule.process_frame. cbv zeta. fold raw. cbn [snd].
    destruct (str_truthy (strip raw)); [apply speak_at_other; exact Hr |].
    destruct (ReadingModule._fallback_message self) as [m |]; [| reflexivity].
    destruct (opt_str_truthy (Some m)); [apply speak_at_other; exact Hr | reflexivity].
Qed.

End WrapperFacts.

(* ===================================================================== *)
(** * Further properties of the mode matcher *)
(* ===================================================================== *)

Section StringFacts.
Import Py.

Lemma string_app_assoc (a b c : string) : ((a ++ b) ++ c = a ++ (b ++ c))%string.
Proof. induction a as [| x a IH]; cbn; [reflexivity | rewrite IH; reflexivity]. Qed.

Lemma string_app_nil_r (a : string) : (a ++ "" = a)%string.
Proof. induction a as [| x a IH]; cbn; [reflexivity | rewrite IH; reflexivity]. Qed.

Lemma prefix_iff (p s : string) :
  prefix p s = true <-> exists post, s = (p ++ post)%string.
Proof.
  revert s. induction p as [| a p IH]; intros s.
  - destruct s; cbn; split; intros _; try reflexivity; eexists; reflexivity.
  - destruct s as [| b s]; cbn [prefix].
    + split; [discriminate | intros [post H]; discriminate H].
    + destruct (ascii_dec a b) as [-> | Hne].
      * rewrite IH. split; intros [post H]; exists post.
        -- cbn. rewrite H. reflexivity.
        -- cbn in H. injection H as H. exact H.
      * split; [discriminate |]. intros [post H]. cbn in H.
        injection H as Hab _. congruence.
Qed.

(** [contains] is the substring relation. *)
Lemma contains_iff (sub s : string) :
  contains sub s = true <-> exists pre post, s = (pre ++ sub ++ post)%string.
Proof.
  induction s as [| c s IH]; cbn [contains].
  - rewrite orb_false_r, prefix_iff. split.
    + intros [post H]. exists ""%string, post. exact H.
    + intros [pre [post H]]. destruct pre; [exists post; exact H | discriminate H].
  - rewrite orb_true_iff, prefix_iff, IH. split.
    + intros [[post H] | [pre [post H]]].
      * exists ""%string, post. exact H.
      * exists (String c pre), post. cbn. rewrite H. reflexivity.
    + intros [pre [post H]]. destruct pre as [| x pre].
      * left. exists post. exact H.
      * right. cbn in H. injection H as _ H. exists pre, post. exact H.
Qed.

Lemma contains_empty (s : string) : contains "" s = true.
Proof. destruct s; reflexivity. Qed.

Lemma lower_char_idempotent (c : ascii) : lower_char (lower_char c) = lower_char c.
Proof.
  destruct c as [b0 b1 b2 b3 b4 b5 b6 b7];
    destruct b0, b1, b2, b3, b4, b5, b6, b7; reflexivity.
Qed.

Lemma isspace_lower_char (c : ascii) : isspace (lower_char c) = isspace c.
Proof.
  destruct c as [b0 b1 b2 b3 b4 b5 b6 b7];
    destruct b0, b1, b2, b3, b4, b5, b6, b7; reflexivity.
Qed.

Lemma lower_app (a b : string) : lower (a ++ b) = (lower a ++ lower b)%string.
Proof. induction a as [| x a IH]; cbn; [reflexivity | rewrite IH; reflexivity]. Qed.

Lemma all_chars_app (p : ascii -> bool) (a b : string) :
  Views.all_chars p (a ++ b) = Views.all_chars p a && Views.all_chars p b.
Proof.
  induction a as [| x a IH]; cbn; [reflexivity |].
  rewrite IH, andb_assoc. reflexivity.
Qed.

Lemma lower_fixed (s : string) :
  Views.all_chars (fun c => Ascii.eqb (lower_char c) c) s = true -> lower s = s.
Proof.
  induction s as [| c s IH]; cbn; [reflexivity |].
  intros H. apply andb_true_iff in H. destruct H as [Hc Hs].
  apply Ascii.eqb_eq in Hc. rewrite Hc, (IH Hs). reflexivity.
Qed.

Lemma lower_is_lowered (s : string) :
  Views.all_chars (fun c => Ascii.eqb (lower_char c) c) (lower s) = true.
Proof.
  induction s as [| c s IH]; cbn; [reflexivity |].
  rewrite lower_char_idempotent, Ascii.eqb_refl, IH. reflexivity.
Qed.

(** The words [split] returns are non-empty and free of whitespace. *)
Lemma split_from_words (s word : string) :
  Views.all_chars (fun c => negb (isspace c)) word = true ->
  Forall (fun w => w <> ""%string /\
                   Views.all_chars (fun c => negb (isspace c)) w = true)
         (split_from s word).
Proof.
  revert word. induction s as [| c s IH]; intros word Hword; cbn [split_from].
  - destruct word; cbn [is_empty_str]; [constructor |].
    constructor; [split; [discriminate | exact Hword] | constructor].
  - destruct (isspace c) eqn:Hc.
    + destruct word; cbn [is_empty_str]; [apply IH; reflexivity |].
      constructor; [split; [discriminate | exact Hword] | apply IH; reflexivity].
    + apply IH. rewrite all_chars_app, Hword. cbn. rewrite Hc. reflexivity.
Qed.

(** They are made of code points of the text. *)
Lemma split_from_chars (p : ascii -> bool) (s word : string) :
  Views.all_chars p s = true -> Views.all_chars p word = true ->
  Forall (fun w => Views.all_chars p w = true) (split_from s word).
Proof.
  revert word. induction s as [| c s IH]; intros word Hs Hword; cbn [split_from].
  - destruct (is_empty_str word); constructor; [exact Hword | constructor].
  - cbn in Hs. apply andb_true_iff in Hs. destruct Hs as [Hc Hs].
    destruct (isspace c).
    + destruct (is_empty_str word); [apply IH; [exact Hs | reflexivity] |].
      constructor; [exact Hword | apply IH; [exact Hs | reflexivity]].
    + apply IH; [exact Hs |]. rewrite all_chars_app, Hword. cbn. rewrite Hc. reflexivity.
Qed.

Lemma split_from_word (w s acc : string) :
  Views.all_chars (fun c => negb (isspace c)) w = true ->
  split_from (w ++ s) acc = split_from s (acc ++ w).
Proof.
  revert acc. induction w as [| c w IH]; intros acc Hw.
  - cbn. rewrite string_app_nil_r. reflexivity.
  - cbn in Hw. apply andb_true_iff in Hw. destruct Hw as [Hc Hw].
    apply negb_true_iff in Hc. cbn [append split_from]. rewrite Hc.
    rewrite (IH _ Hw), string_app_assoc. reflexivity.
Qed.

(** Splitting what was joined with single spaces gives the words back. *)
Lemma split_join (words : list string) :
  Forall (fun w => w <> ""%string /\
                   Views.all_chars (fun c => negb (isspace c)) w = true) words ->
  split (join " " words) = words.
Proof.
  unfold split. induction 1 as [| w rest [Hne Hw] Hrest IH]; [reflexivity |].
  destruct rest as [| w2 rest'].
  - cbn [join]. rewrite <- (string_app_nil_r w) at 1.
    rewrite (split_from_word w "" "" Hw). cbn [append split_from].
    destruct w; [contradiction | reflexivity].
  - change (join " " (w :: w2 :: rest'))
      with (w ++ " " ++ join " " (w2 :: rest'))%string.
    rewrite (split_from_word w _ "" Hw). cbn [append split_from].
    change (isspace " ") with true. cbv iota.
    destruct w; [contradiction |]. cbn [is_empty_str]. rewrite IH. reflexivity.
Qed.

Lemma lower_join (words : list string) :
  lower (join " " words) = join " " (map lower words).
Proof.
  induction words as [| w rest IH]; [reflexivity |].
  destruct rest as [| w2 rest'].
  - reflexivity.
  - change (join " " (w :: w2 :: rest'))
      with (w ++ " " ++ join " " (w2 :: rest'))%string.
    rewrite !lower_app, IH. reflexivity.
Qed.

End StringFacts.

Section MatcherMore.
Import Py VoiceAssistance.

Lemma normalize_idempotent (t : string) : normalize (normalize t) = normalize t.
Proof.
  unfold normalize. set (words := split (lower t)).
  assert (Hclean : Forall (fun w => w <> "" /\
                     Views.all_chars (fun c => negb (isspace c)) w = true) words)
    by (apply split_from_words; reflexivity).
  assert (Hlow : Forall (fun w =>
                     Views.all_chars (fun c => Ascii.eqb (lower_char c) c) w = true) words)
    by (apply split_from_chars; [apply lower_is_lowered | reflexivity]).
  assert (Hmap : map lower words = words).
  { clear Hclean. induction Hlow as [| w rest Hw _ IH]; [reflexivity |].
    cbn [map]. rewrite (lower_fixed w Hw), IH. reflexivity. }
  rewrite lower_join, Hmap, (split_join words Hclean). reflexivity.
Qed.

(** X10: the constructor of the command configuration accepts every table
    whose keys are all supported modes -- the empty table and modes with
    no phrases included -- and keeps the table as given; it rejects every
    other table with a ValueError. *)
Theorem config_accepts_exactly_valid_tables :
  forall table : PhraseTable,
    (Spec.valid_table table ->
     CommandConfig_init (Some table) = inr (mkCommandConfig table)) /\
    (~ Spec.valid_table table ->
     exists mode, ~ In mode MODES /\
       CommandConfig_init (Some table)
       = inl (ValueError ("Unsupported mode: " ++ mode))) /\
    (forall cfg, CommandConfig_init (Some table) = inr cfg ->
       phrases_by_mode cfg = table /\ Spec.valid_table table).
Proof.
  intros table. split; [| split].
  - intros Hvalid. unfold CommandConfig_init.
    rewrite (proj2 (post_init_returns_iff table) Hvalid). reflexivity.
  - intros Hbad. destruct (post_init_raises table Hbad) as [mode [_ [Hout Herr]]].
    exists mode. split; [exact Hout |].
    unfold CommandConfig_init. rewrite Herr. reflexivity.
  - intros cfg Hinit.
    pose proof (CommandConfig_init_valid (Some table) cfg Hinit) as Hvalid.
    unfold CommandConfig_init in Hinit.
    destruct (__post_init__ table) as [e | []]; cbn [bind ret] in Hinit;
      [discriminate |].
    injection Hinit as <-. cbn [phrases_by_mode] in *. split; [reflexivity | exact Hvalid].
Qed.

Lemma config_accepts_exactly_valid_tables_witness :
  CommandConfig_init (Some [("reading", ["read"]); ("navigation", [])])
  = inr (mkCommandConfig [("reading", ["read"]); ("navigation", [])]) /\
  CommandConfig_init (Some []) = inr (mkCommandConfig []) /\
  (exists mode, ~ In mode MODES /\
     CommandConfig_init (Some [("music", ["play"])])
     = inl (ValueError ("Unsupported mode: " ++ mode))) /\
  phrases_by_mode Examples.default_config = default_phrases_by_mode.
Proof.
  split; [| split; [| split]].
  - apply (proj1 (config_accepts_exactly_valid_tables
                    [("reading", ["read"]); ("navigation", [])])).
    repeat constructor; cbn; tauto.
  - apply (proj1 (config_accepts_exactly_valid_tables [])). constructor.
  - apply (proj1 (proj2 (config_accepts_exactly_valid_tables [("music", ["play"])]))).
    intros Hvalid. inversion Hvalid as [| item rest Hkey Hrest Hitems]. cbn in Hkey.
    destruct Hkey as [Hk | [Hk | [Hk | []]]]; discriminate Hk.
  - apply (proj2 (proj2 (config_accepts_exactly_valid_tables default_phrases_by_mode))
             Examples.default_config).
    reflexivity.
Defined.

(** X11: handling the same transcript a second time changes nothing more:
    the second call returns the same result as the first and leaves the
    assistant as the first call left it. *)
Theorem handling_twice_changes_nothing_more :
  forall (T : Type) (self : VoiceAssistant T) (transcript : string),
    handle_transcript (snd (handle_transcript self transcript)) transcript
    = handle_transcript self transcript.
Proof.
  intros T self transcript. unfold handle_transcript. cbv zeta.
  unfold _match_mode.
  destruct (match_items (phrases_by_mode (_command_config self)) (normalize transcript))
    as [m |] eqn:Hm; cbn [opt_str_truthy snd].
  - destruct (str_truthy m) eqn:Htruthy;
      cbn [_command_config _transcriber _active_mode]; rewrite Hm;
      cbn [opt_str_truthy]; rewrite Htruthy; reflexivity.
  - rewrite Hm. reflexivity.
Qed.

Lemma handle_transcript_keeps_config {T : Type} (self : VoiceAssistant T) (t : string) :
  _command_config (snd (handle_transcript self t)) = _command_config self /\
  _transcriber (snd (handle_transcript self t)) = _transcriber self.
Proof.
  unfold handle_transcript. cbv zeta.
  destruct (_match_mode self (normalize t)) as [m |]; cbn [opt_str_truthy snd];
    [destruct (str_truthy m) |]; split; reflexivity.
Qed.

(** X12: no sequence of handle_transcript and listen_and_handle calls ever
    changes the command configuration of an assistant, whatever the
    transcriber does. *)
Theorem calls_never_change_config :
  forall (T : Type) (transcriber_listen : Transcriber T)
         (self : VoiceAssistant T) (calls : list Call),
    _command_config (do_calls self calls) = _command_config self.
Proof.
  intros T transcriber_listen self calls. unfold do_calls. revert self.
  induction calls as [| c rest IH]; intros self; [reflexivity |].
  cbn [fold_left]. rewrite IH. destruct c as [t | src]; cbn [do_call].
  - apply handle_transcript_keeps_config.
  - unfold listen_and_handle.
    destruct (listen (_transcriber self) src) as [[e | t] transcriber]; [reflexivity |].
    pose proof (handle_transcript_keeps_config
                  (mkVoiceAssistant transcriber (_command_config self) (_active_mode self))
                  t) as [Hcfg _].
    destruct (handle_transcript _ t) as [res self']. exact Hcfg.
Qed.

(** X13: when the transcriber raises, listen_and_handle raises the same
    exception and the assistant keeps its active mode and configuration;
    only the transcriber may have changed.  In particular an assistant over
    the base Transcriber raises NotImplementedError on every
    listen_and_handle and stays as it is. *)
Theorem listen_failure_keeps_mode :
  (forall (T : Type) (transcriber_listen : Transcriber T)
          (self : VoiceAssistant T) (src : AudioSource) (e : exn) (transcriber : T),
     listen (_transcriber self) src = (inl e, transcriber) ->
     listen_and_handle self src
     = (inl e, mkVoiceAssistant transcriber (_command_config self) (_active_mode self))) /\
  (forall (self : VoiceAssistant BaseTranscriber) (src : AudioSource),
     listen_and_handle self src
     = (inl (NotImplementedError "Transcriber.listen must be implemented"), self)).
Proof.
  split.
  - intros T transcriber_listen self src e transcriber Hlisten.
    unfold listen_and_handle. rewrite Hlisten. reflexivity.
  - intros [[] cfg mode] src. reflexivity.
Qed.

Lemma listen_failure_keeps_mode_witness :
  listen_and_handle
    (mkVoiceAssistant mkBaseTranscriber Examples.default_config "reading") tt
  = (inl (NotImplementedError "Transcriber.listen must be implemented"),
     mkVoiceAssistant mkBaseTranscriber Examples.default_config "reading").
Proof.
  apply (proj1 listen_failure_keeps_mode _ _
           (mkVoiceAssistant mkBaseTranscriber Examples.default_config "reading") tt).
  reflexivity.
Defined.

(** X14: normalizing is idempotent, so a transcript and its normalized form
    are handled alike: the same command is matched and the assistant ends
    in the same state. *)
Theorem normalized_transcript_is_handled_alike :
  forall (T : Type) (self : VoiceAssistant T) (transcript : string),
    normalize (normalize transcript) = normalize transcript /\
    matched_command (fst (handle_transcript self (normalize transcript)))
    = matched_command (fst (handle_transcript self transcript)) /\
    snd (handle_transcript self (normalize transcript))
    = snd (handle_transcript self transcript).
Proof.
  intros T self transcript.
  split; [apply normalize_idempotent |].
  unfold handle_transcript. cbv zeta. rewrite normalize_idempotent.
  split; reflexivity.
Qed.

(** X15: an empty phrase occurs in every transcript.  If some entry of the
    table lists the empty string among its phrases, no transcript is left
    unmatched -- not even the empty one -- and when that entry is the first
    of the table every transcript is matched to its mode. *)
Theorem empty_phrase_matches_everything :
  forall (T : Type) (self : VoiceAssistant T) (mode : string) (phrases : list string),
    In (mode, phrases) (phrases_by_mode (_command_config self)) ->
    In "" phrases ->
    (forall transcript,
       matched_command (fst (handle_transcript self transcript)) <> None) /\
    (forall rest, phrases_by_mode (_command_config self) = (mode, phrases) :: rest ->
       forall transcript,
         matched_command (fst (handle_transcript self transcript)) = Some mode).
Proof.
  intros T self mode phrases Hitem Hempty.
  assert (Hany : forall t, any_phrase_in phrases t = true).
  { intros t. apply any_phrase_in_true. exists "". split; [exact Hempty |].
    apply contains_empty. }
  split.
  - intros transcript Hnone. unfold handle_transcript in Hnone. cbv zeta in Hnone.
    cbn [fst matched_command] in Hnone. unfold _match_mode in Hnone.
    apply match_items_none in Hnone.
    pose proof (Hnone mode phrases "" Hitem Hempty) as H.
    rewrite contains_empty in H. discriminate H.
  - intros rest Htable transcript. unfold handle_transcript. cbv zeta.
    cbn [fst matched_command]. unfold _match_mode. rewrite Htable.
    cbn [match_items]. rewrite Hany. reflexivity.
Qed.

Lemma empty_phrase_matches_everything_witness :
  matched_command
    (fst (handle_transcript
            (mkVoiceAssistant mkBaseTranscriber
               (mkCommandConfig [("reading", ["read"; ""])]) "navigation")
            "turn left")) = Some "reading".
Proof.
  destruct (empty_phrase_matches_everything _
              (mkVoiceAssistant mkBaseTranscriber
                 (mkCommandConfig [("reading", ["read"; ""])]) "navigation")
              "reading" ["read"; ""]) as [_ Hfirst].
  - left. reflexivity.
  - right. left. reflexivity.
  - apply (Hfirst []). reflexivity.
Defined.

(** X16: a mode is only ever matched through one of its phrases.  When
    the matcher returns a mode, the table has an entry for that mode with
    a phrase that is a substring of the transcript it was given; so a mode
    whose entries list no phrases is never matched. *)
Theorem match_means_substring :
  forall (T : Type) (self : VoiceAssistant T) (normalized mode : string),
    (_match_mode self normalized = Some mode ->
     exists phrases phrase pre post,
       In (mode, phrases) (phrases_by_mode (_command_config self)) /\
       In phrase phrases /\
       normalized = (pre ++ phrase ++ post)%string) /\
    ((forall phrases, In (mode, phrases) (phrases_by_mode (_command_config self)) ->
        phrases = []) ->
     _match_mode self normalized <> Some mode).
Proof.
  intros T self normalized mode.
  assert (Hsome : _match_mode self normalized = Some mode ->
                  exists phrases phrase pre post,
                    In (mode, phrases) (phrases_by_mode (_command_config self)) /\
                    In phrase phrases /\
                    normalized = (pre ++ phrase ++ post)%string).
  { intros Hm. destruct (match_items_some _ _ _ Hm)
      as [before [phrases [after [Htable [_ [p [Hp Hocc]]]]]]].
    apply contains_iff in Hocc. destruct Hocc as [pre [post Hsplit]].
    exists phrases, p, pre, post. split; [| split; assumption].
    rewrite Htable. apply in_or_app. right. left. reflexivity. }
  split; [exact Hsome |].
  intros Hnone Hm. destruct (Hsome Hm) as [phrases [p [_ [_ [Hitem [Hp _]]]]]].
  rewrite (Hnone phrases Hitem) in Hp. destruct Hp.
Qed.

Lemma match_means_substring_witness :
  (exists phrases phrase pre post,
     In ("reading", phrases)
        (phrases_by_mode (_command_config (Examples.listener [] "navigation"))) /\
     In phrase phrases /\
     "please switch to reading now" = (pre ++ phrase ++ post)%string) /\
  _match_mode
    (mkVoiceAssistant mkBaseTranscriber
       (mkCommandConfig [("navigation", []); ("reading", ["read"])]) "reading")
    "navigation please" <> Some "navigation".
Proof.
  split.
  - apply (proj1 (match_means_substring _ (Examples.listener [] "navigation")
                    "please switch to reading now" "reading")).
    reflexivity.
  - apply (proj2 (match_means_substring _
                    (mkVoiceAssistant mkBaseTranscriber
                       (mkCommandConfig [("navigation", []); ("reading", ["read"])])
                       "reading")
                    "navigation please" "navigation")).
    intros phrases [H | [H | []]]; [injection H as <-; reflexivity | discriminate H].
Defined.

(** X17: a run of transcripts none of which contains a configured phrase
    leaves the assistant exactly as it was. *)
Theorem unmatched_sequence_keeps_assistant :
  forall (T : Type) (transcriber_listen : Transcriber T)
         (self : VoiceAssistant T) (transcripts : list string),
    Forall (fun t => Spec.no_phrase_occurs (phrases_by_mode (_command_config self))
                       (normalize t)) transcripts ->
    do_calls self (map CallHandleTranscript transcripts) = self.
Proof.
  intros T transcriber_listen self transcripts Hall. unfold do_calls.
  induction Hall as [| t rest Ht _ IH]; [reflexivity |].
  cbn [map fold_left do_call].
  rewrite (handle_transcript_no_match self t (proj2 (match_items_none _ _) Ht)).
  exact IH.
Qed.

Lemma unmatched_sequence_keeps_assistant_witness :
  do_calls (Examples.listener [] "reading")
    (map CallHandleTranscript ["Good  Morning"; ""; "turn left"])
  = Examples.listener [] "reading".
Proof.
  apply (unmatched_sequence_keeps_assistant _ Main.ScriptedTranscriber_listen
           (Examples.listener [] "reading") ["Good  Morning"; ""; "turn left"]).
  repeat constructor; apply match_items_none; reflexivity.
Defined.

End MatcherMore.

(* ===================================================================== *)
(** * The scripted transcriber and the demo driver, in general *)
(* ===================================================================== *)

Section DriverFacts.
Import Py VoiceAssistance.

Lemma handle_transcript_next_mode {T : Type} (self : VoiceAssistant T) (t : string) :
  handle_transcript self t
  = (mkModeSwitchResult t (_match_mode self (normalize t))
       (Views.next_mode (phrases_by_mode (_command_config self)) (_active_mode self) t),
     mkVoiceAssistant (_transcriber self) (_command_config self)
       (Views.next_mode (phrases_by_mode (_command_config self)) (_active_mode self) t)).
Proof.
  unfold handle_transcript, Views.next_mode, _match_mode. cbv zeta.
  destruct self as [tr cfg mode]. cbn [_transcriber _command_config _active_mode].
  destruct (match_items (phrases_by_mode cfg) (normalize t)) as [m |];
    cbn [opt_str_truthy]; [destruct (str_truthy m) |]; reflexivity.
Qed.

Lemma handled_mode_is_fold {T : Type} `{Transcriber T}
  (transcripts : list string) :
  forall (tr : T) (cfg : CommandConfig) (mode : string),
    do_calls (mkVoiceAssistant tr cfg mode) (map CallHandleTranscript transcripts)
    = mkVoiceAssistant tr cfg
        (fold_left (Views.next_mode (phrases_by_mode cfg)) transcripts mode).
Proof.
  unfold do_calls.
  induction transcripts as [| t rest IH]; intros tr cfg mode; [reflexivity |].
  cbn [map fold_left do_call]. rewrite handle_transcript_next_mode. cbn [snd].
  apply IH.
Qed.

Lemma nth_error_middle {X : Type} (before : list X) (x : X) (after : list X) :
  nth_error (before ++ x :: after) (List.length before) = Some x.
Proof. induction before as [| b before IH]; [reflexivity | exact IH]. Qed.

Lemma scripted_listen_next (before : list string) (t : string) (after : list string)
  (cfg : CommandConfig) (mode : string) :
  listen_and_handle
    (mkVoiceAssistant
       (Main.mkScriptedTranscriber (before ++ t :: after) (List.length before)) cfg mode)
    tt
  = (inr (mkModeSwitchResult t (match_items (phrases_by_mode cfg) (normalize t))
            (Views.next_mode (phrases_by_mode cfg) mode t)),
     mkVoiceAssistant
       (Main.mkScriptedTranscriber (before ++ t :: after) (S (List.length before))) cfg
       (Views.next_mode (phrases_by_mode cfg) mode t)).
Proof.
  unfold listen_and_handle, listen, Main.ScriptedTranscriber_listen.
  cbn [_transcriber Main._transcripts Main._index].
  rewrite nth_error_middle. cbn [ret].
  rewrite handle_transcript_next_mode. reflexivity.
Qed.

Lemma scripted_listen_exhausted (script : list string) (cfg : CommandConfig) (mode : string) :
  listen_and_handle
    (mkVoiceAssistant (Main.mkScriptedTranscriber script (List.length script)) cfg mode) tt
  = (inr (mkModeSwitchResult "" (match_items (phrases_by_mode cfg) "")
            (Views.next_mode (phrases_by_mode cfg) mode "")),
     mkVoiceAssistant (Main.mkScriptedTranscriber script (List.length script)) cfg
       (Views.next_mode (phrases_by_mode cfg) mode "")).
Proof.
  unfold listen_and_handle, listen, Main.ScriptedTranscriber_listen.
  cbn [_transcriber Main._transcripts Main._index].
  rewrite (proj2 (nth_error_None script (List.length script)) (Nat.le_refl _)).
  cbn [ret]. rewrite handle_transcript_next_mode. reflexivity.
Qed.

Lemma heard_mode_is_fold (after : list string) :
  forall (before : list string) (cfg : CommandConfig) (mode : string),
    do_calls
      (mkVoiceAssistant
         (Main.mkScriptedTranscriber (before ++ after) (List.length before)) cfg mode)
      (repeat (CallListenAndHandle tt) (List.length after))
    = mkVoiceAssistant
        (Main.mkScriptedTranscriber (before ++ after) (List.length (before ++ after))) cfg
        (fold_left (Views.next_mode (phrases_by_mode cfg)) after mode).
Proof.
  unfold do_calls.
  induction after as [| t rest IH]; intros before cfg mode.
  - rewrite app_nil_r. reflexivity.
  - cbn [List.length repeat fold_left do_call].
    rewrite scripted_listen_next. cbn [snd].
    pose proof (IH (before ++ [t])%list cfg
                  (Views.next_mode (phrases_by_mode cfg) mode t)) as Hrest.
    rewrite <- app_assoc in Hrest. cbn [app] in Hrest.
    rewrite length_app in Hrest. cbn [List.length] in Hrest.
    rewrite Nat.add_1_r in Hrest. exact Hrest.
Qed.

(** X18: listening through a scripted transcriber is handling its script in
    order.  After as many listen_and_handle calls as transcripts remain,
    the assistant has the active mode and configuration it would have had
    the remaining transcripts been passed to handle_transcript one by one,
    and the script is used up; from then on every listen_and_handle hears
    the empty transcript and the position in the script stays put. *)
Theorem scripted_listening_is_handling_in_order :
  forall (before after : list string) (cfg : CommandConfig) (mode : string),
    let self :=
      mkVoiceAssistant
        (Main.mkScriptedTranscriber (before ++ after) (List.length before)) cfg mode in
    let heard := do_calls self (repeat (CallListenAndHandle tt) (List.length after)) in
    let handled := do_calls self (map CallHandleTranscript after) in
    _active_mode heard = _active_mode handled /\
    _command_config heard = _command_config handled /\
    _transcriber heard
    = Main.mkScriptedTranscriber (before ++ after) (List.length (before ++ after)) /\
    (exists res, fst (listen_and_handle heard tt) = inr res /\ transcript res = "") /\
    _transcriber (snd (listen_and_handle heard tt)) = _transcriber heard.
Proof.
  intros before after cfg mode self heard handled.
  unfold heard, handled, self.
  rewrite heard_mode_is_fold, handled_mode_is_fold.
  cbn [_active_mode _command_config _transcriber].
  rewrite scripted_listen_exhausted. cbn [fst snd _transcriber].
  split; [reflexivity |]. split; [reflexivity |]. split; [reflexivity |].
  split; [eexists; split; reflexivity | reflexivity].
Qed.

End DriverFacts.

Section DemoMore.
Import Py VoiceAssistance.

Lemma next_mode_supported (table : PhraseTable) (mode t : string) :
  Spec.valid_table table -> In mode MODES -> In (Views.next_mode table mode t) MODES.
Proof.
  intros Hvalid Hmode. unfold Views.next_mode.
  destruct (match_items table (normalize t)) as [m |] eqn:Hm; [| exact Hmode].
  destruct (str_truthy m); [| exact Hmode].
  apply (valid_table_key table m Hvalid). apply (match_items_key _ _ _ Hm).
Qed.

Lemma default_table_valid : Spec.valid_table default_phrases_by_mode.
Proof. repeat constructor; cbn; tauto. Qed.

(** A loop over the script whose every turn hears the next transcript and
    lets the new mode make its announcement logs the announcements of the
    modes passed through. *)
Lemma announcing_loop
  (body : Main.DemoState -> nat -> result Main.DemoState) :
  (forall before t after mode store k,
     In mode MODES ->
     exists store',
       body (mkVoiceAssistant
               (Main.mkScriptedTranscriber (before ++ t :: after) (List.length before))
               Examples.default_config mode, store) k
       = inr (mkVoiceAssistant
                (Main.mkScriptedTranscriber (before ++ t :: after)
                   (S (List.length before)))
                Examples.default_config
                (Views.next_mode default_phrases_by_mode mode t), store') /\
       Main.messages (store' 0%nat)
       = (Main.messages (store 0%nat)
          ++ Views.demo_announcement
               (Views.next_mode default_phrases_by_mode mode t))%list) ->
  forall (after before : list string) (mode : string)
         (store : Navigation.AudioStore Main.DummyAudioOutput) (from : nat),
    In mode MODES ->
    exists out : Main.DemoState,
      for_each body (seq from (List.length after))
        (mkVoiceAssistant
           (Main.mkScriptedTranscriber (before ++ after) (List.length before))
           Examples.default_config mode, store)
      = inr out /\
      Main.messages (snd out 0%nat)
      = (Main.messages (store 0%nat)
         ++ flat_map Views.demo_announcement
              (Views.mode_trace default_phrases_by_mode mode after))%list.
Proof.
  intros Hbody. induction after as [| t rest IH]; intros before mode store from Hmode.
  - eexists. split; [reflexivity |]. cbn. rewrite app_nil_r. reflexivity.
  - cbn [List.length seq for_each Views.mode_trace flat_map].
    destruct (Hbody before t rest mode store from Hmode) as [store' [Hturn Hsaid]].
    rewrite Hturn. cbn [bind].
    set (m := Views.next_mode default_phrases_by_mode mode t) in *.
    assert (Hm : In m MODES)
      by (apply next_mode_supported; [apply default_table_valid | exact Hmode]).
    destruct (IH (before ++ [t])%list m store' (S from) Hm) as [out [Hrun Hlog]].
    rewrite <- app_assoc in Hrun. cbn [app] in Hrun.
    rewrite length_app in Hrun. cbn [List.length] in Hrun.
    rewrite Nat.add_1_r in Hrun.
    exists out. split; [exact Hrun |].
    rewrite Hlog, Hsaid, <- app_assoc. reflexivity.
Qed.

(** What [run_demo] returns, for every list of transcripts. *)
Lemma run_demo_trace (transcripts : list string) :
  Main.run_demo transcripts
  = inr (flat_map Views.demo_announcement
           (Views.mode_trace default_phrases_by_mode "navigation" transcripts)).
Proof.
  unfold Main.run_demo. cbv zeta.
  change (VoiceAssistant_init (Main.ScriptedTranscriber_init transcripts) None "navigation")
    with (inr (mkVoiceAssistant (Main.mkScriptedTranscriber ([] ++ transcripts) 0%nat)
                 Examples.default_config "navigation")
          : result (VoiceAssistant Main.ScriptedTranscriber)).
  cbn [bind].
  change (Main.build_navigation_assistant Main.mkDummyCamera 0%nat)
    with (inr (Navigation.mkNavigationAssistant Main.mkDummyCamera
                 (Main.mkDummyObstacleDetector
                    [Navigation.mkObstacle (Navigation.mkBBox 20 0 80 60) "chair" (91 # 100);
                     Navigation.mkObstacle (Navigation.mkBBox 200 0 260 80) "desk" (87 # 100)])
                 0%nat 320)
          : result (Navigation.NavigationAssistant Main.DummyCamera
                      Main.DummyObstacleDetector)).
  cbn [bind].
  match goal with |- context [for_each ?b _ _] => set (body := b) end.
  destruct (announcing_loop body) with (after := transcripts) (before := @nil string)
    (mode := "navigation") (store := fun _ : Navigation.AudioRef => Main.DummyAudioOutput_init)
    (from := 0%nat) as [[va store] [Hrun Hlog]].
  - intros before t after mode store k Hmode.
    unfold body. rewrite scripted_listen_next. cbn [bind _active_mode].
    change (phrases_by_mode Examples.default_config) with default_phrases_by_mode.
    set (m := Views.next_mode default_phrases_by_mode mode t).
    assert (Hm : In m MODES)
      by (apply next_mode_supported; [apply default_table_valid | exact Hmode]).
    unfold MODES in Hm. cbn [In] in Hm.
    destruct Hm as [Hm | [Hm | [Hm | []]]]; rewrite <- Hm;
      eexists; (split; [reflexivity | cbn; rewrite <- ?app_assoc; reflexivity]).
  - cbn. tauto.
  - cbn [List.length app] in Hrun. cbn [app]. rewrite Hrun. cbn [bind ret].
    cbn [snd] in Hlog. rewrite Hlog. reflexivity.
Qed.

Lemma mode_trace_supported (transcripts : list string) :
  forall mode, In mode MODES ->
    Forall (fun m => In m MODES)
           (Views.mode_trace default_phrases_by_mode mode transcripts).
Proof.
  induction transcripts as [| t rest IH]; intros mode Hmode; cbn [Views.mode_trace];
    [constructor |].
  assert (Hnext : In (Views.next_mode default_phrases_by_mode mode t) MODES)
    by (apply next_mode_supported; [apply default_table_valid | exact Hmode]).
  constructor; [exact Hnext | apply IH; exact Hnext].
Qed.

Lemma announcements_of_supported_modes (modes : list string) :
  Forall (fun m => In m MODES) modes ->
  (List.length modes <= List.length (flat_map Views.demo_announcement modes)
   <= 2 * List.length modes)%nat /\
  Forall (fun message =>
            In message ["forward"; "person"; "book"; "Welcome to the campus library"])
         (flat_map Views.demo_announcement modes).
Proof.
  induction 1 as [| m rest Hm _ [Hlen Hwords]]; [split; [cbn; lia | constructor] |].
  cbn [flat_map]. rewrite length_app. cbn [List.length].
  unfold MODES in Hm. cbn [In] in Hm.
  destruct Hm as [<- | [<- | [<- | []]]]; cbn [Views.demo_announcement String.eqb];
    (split; [cbn; lia |]); cbn [app]; repeat constructor; (exact Hwords || (cbn; tauto)).
Qed.

(** X19: the demo driver never raises, whatever the transcripts.  It
    returns the log in which, transcript after transcript, the mode active
    after that transcript -- the matched mode, or the mode before when
    nothing matched, starting from navigation -- has made its announcement:
    "forward" for navigation, "person" then "book" for object detection,
    "Welcome to the campus library" for reading.  So every transcript adds
    one or two messages, and the log holds these four messages only. *)
Theorem demo_log_follows_the_modes :
  forall transcripts : list string,
    let log := flat_map Views.demo_announcement
                 (Views.mode_trace default_phrases_by_mode "navigation" transcripts) in
    Main.run_demo transcripts = inr log /\
    (List.length transcripts <= List.length log <= 2 * List.length transcripts)%nat /\
    Forall (fun message =>
              In message ["forward"; "person"; "book"; "Welcome to the campus library"])
           log.
Proof.
  intros transcripts log. split; [apply run_demo_trace |].
  assert (Hmodes : Forall (fun m => In m MODES)
                     (Views.mode_trace default_phrases_by_mode "navigation" transcripts))
    by (apply mode_trace_supported; cbn; tauto).
  destruct (announcements_of_supported_modes _ Hmodes) as [Hlen Hwords].
  assert (Htrace : forall ts mode,
            List.length (Views.mode_trace default_phrases_by_mode mode ts)
            = List.length ts).
  { induction ts as [| t rest IH]; intros mode; cbn; [reflexivity | rewrite IH; reflexivity]. }
  rewrite Htrace in Hlen. split; assumption.
Qed.

(** X20: transcripts that contain no configured phrase never leave the
    initial navigation mode: the demo driver answers each of them with
    "forward". *)
Theorem demo_without_commands_says_forward :
  forall transcripts : list string,
    Forall (fun t => Spec.no_phrase_occurs default_phrases_by_mode (normalize t))
           transcripts ->
    Main.run_demo transcripts = inr (repeat "forward" (List.length transcripts)).
Proof.
  intros transcripts Hall. rewrite run_demo_trace. f_equal.
  induction Hall as [| t rest Ht _ IH]; [reflexivity |].
  cbn [Views.mode_trace List.length repeat flat_map].
  unfold Views.next_mode at 1 2.
  rewrite (proj2 (match_items_none _ _) Ht).
  cbn [Views.demo_announcement String.eqb app]. rewrite IH. reflexivity.
Qed.

Lemma demo_without_commands_witness :
  Main.run_demo ["hello"; ""; "Turn  LEFT"] = inr ["forward"; "forward"; "forward"].
Proof.
  apply (demo_without_commands_says_forward ["hello"; ""; "Turn  LEFT"]).
  repeat constructor; apply match_items_none; reflexivity.
Defined.

End DemoMore.
